(** * Browser request service: result model, delegating and XHR strategies

    A shallow embedding of [common/request.ts] (the [RequestContext]
    helpers) and of [browser/request/browser-request-service.ts]
    ([DefaultBrowserRequestService] and [XHRBrowserRequestService]).

    Conventions of the embedding
    - a JavaScript string is a [string]: a sequence of code units, here the
      code units 0..255.  That is exact for the value returned by
      [getAllResponseHeaders()], a byte string, and for ASCII header names;
    - an optional property [p?: A] is an [option A], [None] being
      [undefined]; where the code asks ['p' in o], the property is a
      [field A], which also tells an absent key from a present key that
      holds [undefined];
    - a [number] is a [Z] (status codes, time-outs and byte values are
      integers);
    - a plain object used as a dictionary is an association list in
      insertion order, which is the order of [Object.keys] for keys that
      are not array indices, as header names are;
    - a promise is its outcome, [Resolved] or [Rejected]; a promise that
      never settles is [None] of an [option];
    - the built-ins the code calls but does not define ([JSON.parse], the
      text decoding of [BinaryBuffer], the privileged peer) are interfaces:
      type classes or section variables. *)

From Stdlib Require Import ZArith List Bool Lia.
From Stdlib Require Import Strings.String Strings.Ascii Numbers.DecimalString.
Import ListNotations.

Open Scope string_scope.
Open Scope Z_scope.

(* ================================================================= *)
(** ** JavaScript built-ins used by the code *)

Module Js.

(** Reason of a rejection or thrown value. [NoReason] is the reason of a
    bare [reject()], that is [undefined]. *)
Inductive exn : Type :=
| Error (message : string)
| SyntaxError (message : string)
| TypeError
| NoReason.

(** Outcome of a settled promise. *)
Inductive promise (A : Type) : Type :=
| Resolved (a : A)
| Rejected (e : exn).
Arguments Resolved {A} a.
Arguments Rejected {A} e.

Definition then_ {A B : Type} (p : promise A) (f : A -> B) : promise B :=
  match p with
  | Resolved a => Resolved (f a)
  | Rejected e => Rejected e
  end.

(** A property that [in] can observe: absent, or present with a value
    that may be [undefined]. *)
Inductive field (A : Type) : Type :=
| Absent
| Present (v : option A).
Arguments Absent {A}.
Arguments Present {A} v.

(** [o.p] on such a property. *)
Definition read {A : Type} (f : field A) : option A :=
  match f with
  | Absent => None
  | Present v => v
  end.

(** ['p' in o]. *)
Definition has {A : Type} (f : field A) : bool :=
  match f with
  | Absent => false
  | Present _ => true
  end.

(** [ToBoolean] on [string | undefined]. *)
Definition truthy_string (s : option string) : bool :=
  match s with
  | None => false
  | Some "" => false
  | Some _ => true
  end.

(** [ToBoolean] on [number | undefined]. *)
Definition truthy_number (n : option Z) : bool :=
  match n with
  | None => false
  | Some z => negb (z =? 0)
  end.

(** [a || b] on [string | undefined]. *)
Definition or_string (a b : option string) : option string :=
  if truthy_string a then a else b.

(** [String(n)] for an integer [n] (below 1e21 in magnitude). *)
Definition Number_toString (n : Z) : string :=
  NilZero.string_of_int (Z.to_int n).

(** ['...' + v] for [v : number | undefined]. *)
Definition show_number (n : option Z) : string :=
  match n with
  | None => "undefined"
  | Some z => Number_toString z
  end.

(** *** Strings *)

Definition CR : ascii := "013"%char.
Definition LF : ascii := "010"%char.
Definition colon : ascii := ":"%char.

(** White space and line terminators of [String.prototype.trim] among
    the code units 0..255: TAB, LF, VT, FF, CR, SP and NBSP. *)
Definition is_white (c : ascii) : bool :=
  let n := N_of_ascii c in
  (((9 <=? n) && (n <=? 13)) || (n =? 32) || (n =? 160))%N.

Fixpoint trimStart (s : string) : string :=
  match s with
  | EmptyString => EmptyString
  | String c r => if is_white c then trimStart r else s
  end.

(** The string without its trailing white space. *)
Fixpoint trimEnd (s : string) : string :=
  match s with
  | EmptyString => EmptyString
  | String c r =>
      match trimEnd r with
      | EmptyString => if is_white c then EmptyString else String c EmptyString
      | r' => String c r'
      end
  end.

Definition trim (s : string) : string := trimEnd (trimStart s).

(** [toLowerCase] on one code unit of 0..255: A-Z, and the Latin-1
    capitals 0xC0-0xDE but the multiplication sign 0xD7. *)
Definition lower_char (c : ascii) : ascii :=
  let n := N_of_ascii c in
  if (((65 <=? n) && (n <=? 90))
      || ((192 <=? n) && (n <=? 222) && negb (n =? 215)))%N
  then ascii_of_N (n + 32)
  else c.

Fixpoint toLowerCase (s : string) : string :=
  match s with
  | EmptyString => EmptyString
  | String c r => String (lower_char c) (toLowerCase r)
  end.

(** [s.indexOf(c)] counted from [i]: the position of the first [c], or
    -1. *)
Fixpoint indexOf_from (c : ascii) (s : string) (i : Z) : Z :=
  match s with
  | EmptyString => -1
  | String a r => if Ascii.eqb a c then i else indexOf_from c r (i + 1)
  end.

Definition indexOf (s : string) (c : ascii) : Z := indexOf_from c s 0.

Definition size (s : string) : Z := Z.of_nat (String.length s).

(** Start position of [substr]: a negative start counts from the end. *)
Definition substr_start (s : string) (start : Z) : Z :=
  if start <? 0 then Z.max (size s + start) 0 else Z.min start (size s).

(** [s.substr(start, len)]. *)
Definition substr (s : string) (start len : Z) : string :=
  let st := substr_start s start in
  let n := Z.min (Z.max len 0) (size s - st) in
  String.substring (Z.to_nat st) (Z.to_nat n) s.

(** [s.substr(start)]. *)
Definition substr_to_end (s : string) (start : Z) : string :=
  let st := substr_start s start in
  String.substring (Z.to_nat st) (Z.to_nat (size s - st)) s.

(** [s.split(/\r\n|\n|\r/g)]: [cur] is the piece being read, reversed.
    At a CR the alternative [\r\n] is tried first and eats a following
    LF. *)
Fixpoint split_lines_acc (s : string) (cur : list ascii) : list string :=
  match s with
  | EmptyString => [string_of_list_ascii (rev cur)]
  | String c r =>
      if Ascii.eqb c CR then
        match r with
        | String c' r' =>
            if Ascii.eqb c' LF
            then string_of_list_ascii (rev cur) :: split_lines_acc r' []
            else string_of_list_ascii (rev cur) :: split_lines_acc r []
        | EmptyString => string_of_list_ascii (rev cur) :: split_lines_acc r []
        end
      else if Ascii.eqb c LF then
        string_of_list_ascii (rev cur) :: split_lines_acc r []
      else split_lines_acc r (c :: cur)
  end.

Definition split_lines (s : string) : list string := split_lines_acc s [].

(** [ToBoolean] on a string. *)
Definition nonempty (s : string) : bool :=
  match s with
  | EmptyString => false
  | _ => true
  end.

(** *** Objects used as dictionaries *)

Definition dict : Type := list (string * string).

(** [o[k]]. *)
Fixpoint get (o : dict) (k : string) : option string :=
  match o with
  | [] => None
  | (k', v) :: r => if String.eqb k' k then Some v else get r k
  end.

(** [o[k] = v] on an object that has the key, or not: an existing key
    keeps its place, a new one goes last. *)
Fixpoint put (o : dict) (k v : string) : dict :=
  match o with
  | [] => [(k, v)]
  | (k', v') :: r =>
      if String.eqb k' k then (k', v) :: r else (k', v') :: put r k v
  end.

(** [o[k] = v] for a string [v]: the key [__proto__] reaches the setter
    of [Object.prototype], which ignores a value that is not an object,
    and no own property is made. *)
Definition assign (o : dict) (k v : string) : dict :=
  if String.eqb k "__proto__" then o else put o k v.

(** [Object.keys(o)]. *)
Definition keys (o : dict) : list string := map fst o.

(** [{...o, [k]: v}]: a fresh object. *)
Definition spread_with (o : dict) (k v : string) : dict := put o k v.

End Js.

Export Js.

(* ================================================================= *)
(** ** common/request.ts *)

Definition Headers : Type := dict.

Module RequestOptions.
Record t : Type := mk {
  type : option string;
  url : string;
  user : option string;
  password : option string;
  headers : option Headers;
  timeout : option Z;
  data : option string;
  followRedirects : option Z;
  proxyAuthorization : option string
}.

(** [options.headers = h], the one assignment the code makes to an
    options object. *)
Definition set_headers (o : t) (h : Headers) : t :=
  mk (type o) (url o) (user o) (password o) (Some h) (timeout o) (data o)
     (followRedirects o) (proxyAuthorization o).
End RequestOptions.

(** [BinaryBuffer]: the wrapped [Uint8Array]. *)
Module BinaryBuffer.
Record t : Type := wrap { buffer : list Z }.

(** [Uint8Array.from(numbers)]: every element is reduced modulo 256. *)
Definition Uint8Array_from (numbers : list Z) : list Z :=
  map (fun n => n mod 256) numbers.
End BinaryBuffer.

(** [BinaryBuffer.toString()], the decoding of the bytes as UTF-8 text. *)
Class TextDecoder : Type := { toString : BinaryBuffer.t -> string }.

(** [JSON.parse] into [T]: the value, or the message of the
    [SyntaxError] it throws. *)
Class JsonParser (T : Type) : Type := { JSON_parse : string -> T + string }.

Module RequestConfiguration.
Record t : Type := mk {
  proxyUrl : field string;
  proxyAuthorization : field string;
  strictSSL : field bool
}.

(** [{}]. *)
Definition empty : t := mk Absent Absent Absent.

Definition set_proxyUrl (c : t) (v : option string) : t :=
  mk (Present v) (proxyAuthorization c) (strictSSL c).
Definition set_proxyAuthorization (c : t) (v : option string) : t :=
  mk (proxyUrl c) (Present v) (strictSSL c).
Definition set_strictSSL (c : t) (v : option bool) : t :=
  mk (proxyUrl c) (proxyAuthorization c) (Present v).
End RequestConfiguration.

Module RequestContext.

Record response : Type := mk_res {
  headers : Headers;
  statusCode : option Z
}.

Record t : Type := mk {
  res : response;
  buffer : BinaryBuffer.t
}.

(** [(sc && sc >= 200 && sc < 300) || sc === 1223]. *)
Definition isSuccess (context : t) : bool :=
  let sc := statusCode (res context) in
  (truthy_number sc
   && match sc with Some z => (200 <=? z) && (z <? 300) | None => false end)
  || match sc with Some z => z =? 1223 | None => false end.

Definition hasNoContent (context : t) : bool :=
  match statusCode (res context) with
  | Some z => z =? 204
  | None => false
  end.

Definition asText `{TextDecoder} (context : t) : promise string :=
  if negb (isSuccess context) then
    Rejected (Error ("Server returned " ++ show_number (statusCode (res context))))
  else if hasNoContent context then
    Resolved ""
  else
    Resolved (toString (buffer context)).

Definition asJson {T : Type} `{TextDecoder} `{JsonParser T} (context : t)
  : promise T :=
  if negb (isSuccess context) then
    Rejected (Error ("Server returned " ++ show_number (statusCode (res context))))
  else
    let str := toString (buffer context) in
    match JSON_parse str with
    | inl v => Resolved v
    | inr message =>
        Rejected (SyntaxError (message ++ (":" ++ String LF "") ++ str))
    end.

End RequestContext.

(* ================================================================= *)
(** ** The collaborators of the two services *)

(** What the privileged peer sends back: the context whose buffer crossed
    the boundary as [{data: number[]}]. *)
Record TransferredContext : Type := {
  t_res : RequestContext.response;
  t_data : list Z
}.

(** The injected collaborators: the privileged peer and the promise
    [preferenceService.ready].  A promise that never settles is [None]: of
    [ready], which may resolve, reject or stay pending, and of a request
    of the peer.  A promise that settles has settled when it is awaited. *)
Record Peer : Type := {
  ready : option (promise unit);
  backend_request : RequestOptions.t -> option (promise TransferredContext);
  backend_resolveProxy : string -> promise (option string)
}.

(** A call on the [XMLHttpRequest] object, property assignments
    included. *)
Inductive XhrCall : Type :=
| xhr_open (method url : string) (async : bool) (user password : option string)
| xhr_setRequestHeader (name value : string)
| xhr_responseType (value : string)
| xhr_timeout (ms : Z)
| xhr_send (body : option string)
| xhr_abort.

(** What may happen to a request that was sent: the events of the
    [XMLHttpRequest], each with what the handler reads from the object
    then, and the firing of the cancellation token. *)
Inductive XhrEvent : Type :=
| ev_load (status : Z) (allResponseHeaders : string) (response : list Z)
| ev_error (statusText : string)
| ev_timeout
| ev_cancel.

(** The native primitive as the code sees it: which of its calls throw,
    and the events that follow [send]. *)
Record Native : Type := {
  throws : XhrCall -> option exn;
  events : list XhrEvent
}.

(** Everything a service does to the outside. *)
Inductive Effect : Type :=
| native (c : XhrCall)
| peer_configure (config : RequestConfiguration.t)
| peer_request (options : RequestOptions.t).

(** A value of a preference, of type [any]. *)
Inductive any : Type :=
| a_undefined
| a_string (s : string)
| a_boolean (b : bool).

Record PreferenceChange : Type := {
  newValue : any;
  oldValue : any
}.

(** The event of [onPreferencesChanged]: preference name to change. *)
Definition PreferenceChanges : Type := list (string * PreferenceChange).

(** State of a service object: the [authorization] field (of the XHR
    service) and the effects so far, oldest first. *)
Record Service : Type := {
  authorization : option string;
  effects : list Effect
}.

Definition emit (s : Service) (l : list Effect) : Service :=
  {| authorization := authorization s; effects := (effects s ++ l)%list |}.

(** A request seen from its caller: the outcome ([None]: the promise
    never settles), the caller's options object afterwards, and the
    service afterwards. *)
Record Run : Type := {
  outcome : option (promise RequestContext.t);
  options_after : RequestOptions.t;
  service_after : Service
}.

(** A run, and the native calls that listeners make after it. *)
Definition afterwards (run : Run) (late : list XhrCall) : Run :=
  {| outcome := outcome run;
     options_after := options_after run;
     service_after := emit (service_after run) (map native late) |}.

(* ================================================================= *)
(** ** Running code that may throw *)

(** Result of a synchronous piece of code: a value, or a thrown
    exception.  [untyped] marks a run in which a value of type [any] was
    stored where its run-time type is not the declared one; the embedding,
    which follows the declared types, does not describe such a run
    further. *)
Inductive handled (A : Type) : Type :=
| done (a : A)
| threw (e : exn)
| untyped.
Arguments done {A} a.
Arguments threw {A} e.
Arguments untyped {A}.

Definition hbind {A B : Type} (m : handled A) (k : A -> handled B)
  : handled B :=
  match m with
  | done a => k a
  | threw e => threw e
  | untyped => untyped
  end.

Notation "x <- m ;; k" := (hbind m (fun x => k))
  (at level 61, m at next level, right associativity).

(** Code that drives an [XMLHttpRequest]: it reads which calls throw and
    appends the calls that returned to the log. *)
Definition Exec (A : Type) : Type :=
  (XhrCall -> option exn) -> list XhrCall -> (A + exn) * list XhrCall.

Definition eret {A : Type} (a : A) : Exec A := fun _ log => (inl a, log).

Definition ebind {A B : Type} (m : Exec A) (k : A -> Exec B) : Exec B :=
  fun th log =>
    match m th log with
    | (inl a, log') => k a th log'
    | (inr e, log') => (inr e, log')
    end.

Notation "m >> k" := (ebind m (fun _ => k))
  (at level 62, right associativity).

(** One call on the object. *)
Definition call (c : XhrCall) : Exec unit :=
  fun th log =>
    match th c with
    | Some e => (inr e, log)
    | None => (inl tt, (log ++ [c])%list)
    end.

(** [for (const k of ks) body(k)]. *)
Fixpoint for_of (ks : list string) (body : string -> Exec unit) : Exec unit :=
  match ks with
  | [] => eret tt
  | k :: r => body k >> for_of r body
  end.

(* ================================================================= *)
(** ** browser-request-service.ts: DefaultBrowserRequestService *)

Module DefaultBrowserRequestService.

(** [e[k]]. *)
Fixpoint lookup (e : PreferenceChanges) (k : string)
  : option PreferenceChange :=
  match e with
  | [] => None
  | (k', c) :: r => if String.eqb k' k then Some c else lookup r k
  end.

(** [k in e]. *)
Definition has_key (e : PreferenceChanges) (k : string) : bool :=
  match lookup e k with
  | Some _ => true
  | None => false
  end.

(** [e[k].newValue]: reading a property of [undefined] throws a
    [TypeError]. *)
Definition newValue_at (e : PreferenceChanges) (k : string) : handled any :=
  match lookup e k with
  | Some c => done (newValue c)
  | None => threw TypeError
  end.

(** Storing an [any] in a property declared [string | undefined]. *)
Definition as_string (v : any) : handled (option string) :=
  match v with
  | a_undefined => done None
  | a_string s => done (Some s)
  | a_boolean _ => untyped
  end.

(** Storing an [any] in a property declared [boolean | undefined]. *)
Definition as_boolean (v : any) : handled (option bool) :=
  match v with
  | a_undefined => done None
  | a_boolean b => done (Some b)
  | a_string _ => untyped
  end.

(** The body of the listener up to its last statement: the [config] it
    builds. *)
Definition changed_config (e : PreferenceChanges)
  : handled RequestConfiguration.t :=
  let config := RequestConfiguration.empty in
  config <- (if has_key e "http.proxy" then
               v <- newValue_at e "http.proxy" ;;
               s <- as_string v ;;
               done (RequestConfiguration.set_proxyUrl config s)
             else done config) ;;
  config <- (if has_key e "http.proxyAuthorization" then
               v <- newValue_at e "proxyAuthorization" ;;
               s <- as_string v ;;
               done (RequestConfiguration.set_proxyAuthorization config s)
             else done config) ;;
  config <- (if has_key e "http.proxyStrictSSL" then
               v <- newValue_at e "http.proxyStrictSSL" ;;
               b <- as_boolean v ;;
               done (RequestConfiguration.set_strictSSL config b)
             else done config) ;;
  done config.

(** The listener that [init] subscribes to [onPreferencesChanged].
    [this.configure] is the method of the object at hand, so it is an
    argument. *)
Definition init (this_configure : RequestConfiguration.t -> Service -> Service)
  (e : PreferenceChanges) (s : Service) : handled Service :=
  config <- changed_config e ;;
  done (this_configure config s).

Definition configure (config : RequestConfiguration.t) (s : Service)
  : Service :=
  emit s [peer_configure config].

Definition resolveProxy (peer : Peer) (url : string)
  : promise (option string) :=
  backend_resolveProxy peer url.

Definition transformBackendResponse (context : TransferredContext)
  : RequestContext.t :=
  RequestContext.mk (t_res context)
    (BinaryBuffer.wrap (BinaryBuffer.Uint8Array_from (t_data context))).

(** [await ready], then the peer's request, then the transformation.  A
    rejection of [ready] rejects the request before the peer is asked;
    while [ready] is pending nothing happens. *)
Definition request (peer : Peer) (options : RequestOptions.t) (s : Service)
  : Run :=
  match ready peer with
  | Some (Resolved _) =>
      {| outcome :=
           option_map (fun p => then_ p transformBackendResponse)
                      (backend_request peer options);
         options_after := options;
         service_after := emit s [peer_request options] |}
  | Some (Rejected e) =>
      {| outcome := Some (Rejected e);
         options_after := options;
         service_after := s |}
  | None =>
      {| outcome := None; options_after := options; service_after := s |}
  end.

End DefaultBrowserRequestService.

(* ================================================================= *)
(** ** browser-request-service.ts: XHRBrowserRequestService *)

Module XHRBrowserRequestService.

Definition super_configure := DefaultBrowserRequestService.configure.
Definition super_request := DefaultBrowserRequestService.request.

Definition configure (config : RequestConfiguration.t) (s : Service)
  : Service :=
  let s' :=
    if has (RequestConfiguration.proxyAuthorization config) then
      {| authorization := read (RequestConfiguration.proxyAuthorization config);
         effects := effects s |}
    else s in
  super_configure config s'.

(** The three names of the [switch]. *)
Definition unsafe_header (k : string) : bool :=
  String.eqb k "User-Agent" || String.eqb k "Accept-Encoding"
  || String.eqb k "Content-Length".

(** [options.headers[k]] handed to [setRequestHeader], which turns its
    argument into a string. *)
Definition header_value (h : Headers) (k : string) : string :=
  match get h k with
  | Some v => v
  | None => "undefined"
  end.

Definition setRequestHeaders (options : RequestOptions.t) : Exec unit :=
  match RequestOptions.headers options with
  | Some h =>
      for_of (keys h) (fun k =>
        if unsafe_header k then eret tt
        else call (xhr_setRequestHeader k (header_value h k)))
  | None => eret tt
  end.

(** One line of the loop of [getResponseHeaders]. *)
Definition add_line (headers : Headers) (line : string) : Headers :=
  if nonempty line then
    let idx := indexOf line colon in
    assign headers (toLowerCase (trim (substr line 0 idx)))
                   (trim (substr_to_end line (idx + 1)))
  else headers.

(** [getResponseHeaders], of the text of [getAllResponseHeaders()]. *)
Definition getResponseHeaders (allResponseHeaders : string) : Headers :=
  fold_left add_line (split_lines allResponseHeaders) [].

(** The first statements of [xhrRequest]: the authorization in force and
    the assignment to [options.headers]. *)
Definition effective_authorization (s : Service) (options : RequestOptions.t)
  : option string :=
  or_string (authorization s) (RequestOptions.proxyAuthorization options).

Definition with_authorization (s : Service) (options : RequestOptions.t)
  : RequestOptions.t :=
  match effective_authorization s options with
  | Some a =>
      if truthy_string (Some a) then
        RequestOptions.set_headers options
          (spread_with
             (match RequestOptions.headers options with
              | Some h => h
              | None => []
              end)
             "Proxy-Authorization" a)
      else options
  | None => options
  end.

(** The executor of the promise, to the registration of the
    cancellation listener. *)
Definition executor (options : RequestOptions.t) : Exec unit :=
  call (xhr_open
          (match or_string (RequestOptions.type options) (Some "GET") with
           | Some m => m
           | None => "GET"
           end)
          (RequestOptions.url options) true
          (RequestOptions.user options) (RequestOptions.password options)) >>
  setRequestHeaders options >>
  call (xhr_responseType "arraybuffer") >>
  (if truthy_number (RequestOptions.timeout options) then
     match RequestOptions.timeout options with
     | Some ms => call (xhr_timeout ms)
     | None => eret tt
     end
   else eret tt) >>
  call (xhr_send (RequestOptions.data options)).

(** The request in flight: the calls made on the object and the state
    of the promise, [None] while it is pending. *)
Record Flight : Type := {
  calls : list XhrCall;
  settled : option (promise RequestContext.t)
}.

(** [resolve] and [reject]: only the first of them settles the
    promise. *)
Definition settle (f : Flight) (p : promise RequestContext.t) : Flight :=
  match settled f with
  | None => {| calls := calls f; settled := Some p |}
  | Some _ => f
  end.

(** The four listeners. *)
Definition dispatch (options : RequestOptions.t) (f : Flight) (ev : XhrEvent)
  : Flight :=
  match ev with
  | ev_load status all response =>
      settle f (Resolved
        (RequestContext.mk
           (RequestContext.mk_res (getResponseHeaders all) (Some status))
           (BinaryBuffer.wrap response)))
  | ev_error statusText =>
      settle f (Rejected (Error
        (if nonempty statusText then "XHR failed: " ++ statusText
         else "XHR failed")))
  | ev_timeout =>
      settle f (Rejected (Error
        ("XHR timeout: " ++ show_number (RequestOptions.timeout options)
         ++ "ms")))
  | ev_cancel =>
      settle {| calls := (calls f ++ [xhr_abort])%list; settled := settled f |}
             (Rejected NoReason)
  end.

Definition run_events (options : RequestOptions.t) (f : Flight)
  (evs : list XhrEvent) : Flight :=
  fold_left (dispatch options) evs f.

(** The flight once the executor has run: an exception in the executor
    rejects the promise, and nothing was sent. *)
Definition takeoff (prim : Native) (options : RequestOptions.t)
  : Flight * bool :=
  match executor options (throws prim) [] with
  | (inl _, log) => ({| calls := log; settled := None |}, true)
  | (inr e, log) => ({| calls := log; settled := Some (Rejected e) |}, false)
  end.

(** [xhrRequest]: the options object as it leaves it, and the flight
    after all the events of the native primitive. *)
Definition xhrRequest (prim : Native) (s : Service) (options : RequestOptions.t)
  : RequestOptions.t * Flight :=
  let options' := with_authorization s options in
  match takeoff prim options' with
  | (f, true) => (options', run_events options' f (events prim))
  | (f, false) => (options', f)
  end.

Definition is_405 (r : RequestContext.t) : bool :=
  match RequestContext.statusCode (RequestContext.res r) with
  | Some z => z =? 405
  | None => false
  end.

(** The events up to the one that settles the promise: the flight at
    that moment, and the events still to come. *)
Fixpoint until_settled (options : RequestOptions.t) (f : Flight)
  (evs : list XhrEvent) : Flight * list XhrEvent :=
  match evs with
  | [] => (f, [])
  | ev :: rest =>
      match settled f with
      | Some _ => (f, evs)
      | None => until_settled options (dispatch options f ev) rest
      end
  end.

(** The flight of [xhrRequest] at the moment its promise settles, with
    the events that come after; nothing is heard of a request that was
    not sent. *)
Definition settlement (prim : Native) (s : Service) (options : RequestOptions.t)
  : Flight * list XhrEvent :=
  let options' := with_authorization s options in
  match takeoff prim options' with
  | (f, true) => until_settled options' f (events prim)
  | (f, false) => (f, [])
  end.

(** [request]: [options] names one object, so [super.request] receives
    it as [xhrRequest] left it.  What follows [await] runs when the
    native promise settles, after the calls made until then; the
    listeners stay on the object, so the calls that later events cause
    come after it. *)
Definition request (peer : Peer) (prim : Native) (options : RequestOptions.t)
  (s : Service) : Run :=
  let '(options', whole) := xhrRequest prim s options in
  let f := fst (settlement prim s options) in
  let s' := emit s (map native (calls f)) in
  let late := skipn (List.length (calls f)) (calls whole) in
  match settled f with
  | Some (Resolved xhrResult) =>
      if is_405 xhrResult then afterwards (super_request peer options' s') late
      else afterwards {| outcome := Some (Resolved xhrResult);
                         options_after := options';
                         service_after := s' |} late
  | Some (Rejected _) => afterwards (super_request peer options' s') late
  | None => {| outcome := None; options_after := options'; service_after := s' |}
  end.

End XHRBrowserRequestService.

(* ================================================================= *)
(** ** The specification's wording, for comparison with the code *)

Module Worded.

(** "Splitting on any CR/LF line ending": the non-empty runs of
    characters between line endings. *)
Definition is_eol (c : ascii) : bool := Ascii.eqb c CR || Ascii.eqb c LF.

Definition flush (cur : list ascii) : list string :=
  match cur with
  | [] => []
  | _ => [string_of_list_ascii (rev cur)]
  end.

Fixpoint runs_acc (s : string) (cur : list ascii) : list string :=
  match s with
  | EmptyString => flush cur
  | String c r =>
      if is_eol c then (flush cur ++ runs_acc r [])%list
      else runs_acc r (c :: cur)
  end.

Definition lines (s : string) : list string := runs_acc s [].

(** "Splitting each line at the first colon": what stands before it and
    what stands after it, when there is one. *)
Fixpoint cut (s : string) : option (string * string) :=
  match s with
  | EmptyString => None
  | String a r =>
      if Ascii.eqb a colon then Some (EmptyString, r)
      else match cut r with
           | Some (p, q) => Some (String a p, q)
           | None => None
           end
  end.

(** A line without a colon has the empty name and itself as value. *)
Definition name_value (line : string) : string * string :=
  match cut line with
  | Some (p, q) => (toLowerCase (trim p), trim q)
  | None => (EmptyString, trim line)
  end.

Definition parse_headers (raw : string) : Headers :=
  fold_left (fun h line => assign h (fst (name_value line)) (snd (name_value line)))
            (lines raw) [].

(** "The value cached by the most recent configure call when one is
    cached, otherwise the value in options.proxyAuthorization". *)
Definition authorization_in_force (s : Service) (options : RequestOptions.t)
  : option string :=
  match authorization s with
  | Some a => Some a
  | None => RequestOptions.proxyAuthorization options
  end.

(** "Invokes the inherited delegating request path with the original
    options object unmodified and returns the delegate's result". *)
Definition delegates_unmodified (peer : Peer) (prim : Native)
  (options : RequestOptions.t) (s : Service) : Prop :=
  let run := XHRBrowserRequestService.request peer prim options s in
  In (peer_request options) (effects (service_after run))
  /\ outcome run
     = outcome (DefaultBrowserRequestService.request peer options s).

End Worded.

(* ================================================================= *)
(** ** Sample collaborators, for concrete runs *)

Module Sample.

Definition crlf : string := String CR (String LF "").

(** Decoding of bytes below 128, where UTF-8 and ASCII agree. *)
Definition ascii_text : TextDecoder :=
  {| toString := fun b =>
       string_of_list_ascii
         (map (fun z => ascii_of_N (Z.to_N z)) (BinaryBuffer.buffer b)) |}.

(** A parser of the JSON literals [true] and [false]. *)
Definition literal_parser : JsonParser bool :=
  {| JSON_parse := fun s =>
       if String.eqb s "true" then inl true
       else if String.eqb s "false" then inl false
       else inr "Unexpected token" |}.

Definition context (status : option Z) (body : list Z) : RequestContext.t :=
  RequestContext.mk (RequestContext.mk_res [] status) (BinaryBuffer.wrap body).

(** The bytes of [not json] and of [true]. *)
Definition not_json : list Z := [110; 111; 116; 32; 106; 115; 111; 110].
Definition json_true : list Z := [116; 114; 117; 101].

Definition get_x (h : option Headers) (auth : option string)
  : RequestOptions.t :=
  RequestOptions.mk None "http://x/" None None h None None None auth.

Definition fresh : Service := {| authorization := None; effects := [] |}.

(** A native primitive that never throws and delivers [evs]. *)
Definition quiet (evs : list XhrEvent) : Native :=
  {| throws := fun _ => None; events := evs |}.

(** A native primitive that throws when one of the three unsafe headers
    is set, and delivers [evs]. *)
Definition strict (evs : list XhrEvent) : Native :=
  {| throws := fun c =>
       match c with
       | xhr_setRequestHeader k _ =>
           if XHRBrowserRequestService.unsafe_header k
           then Some (Error "Refused to set unsafe header")
           else None
       | _ => None
       end;
     events := evs |}.

(** A peer that answers every request with 200 and the bytes 1, 2. *)
Definition echo_peer : Peer :=
  {| ready := Some (Resolved tt);
     backend_request := fun _ =>
       Some (Resolved {| t_res := RequestContext.mk_res [] (Some 200);
                         t_data := [1; 2] |});
     backend_resolveProxy := fun _ => Resolved None |}.

Definition change (v : any) : PreferenceChange :=
  {| newValue := v; oldValue := a_undefined |}.

End Sample.

(* ================================================================= *)
(** ** Vocabulary of the statements *)

(** The three header names of the deny list. *)
Definition denied (k : string) : Prop :=
  k = "User-Agent" \/ k = "Accept-Encoding" \/ k = "Content-Length".

(** The headers of [h] that are not denied, as calls, in the order of
    [h]. *)
Definition passed_through (h : Headers) : list XhrCall :=
  map (fun kv => xhr_setRequestHeader (fst kv) (snd kv))
      (filter (fun kv => negb (XHRBrowserRequestService.unsafe_header (fst kv))) h).

(** An object has every key once. *)
Definition well_formed (h : Headers) : Prop := NoDup (keys h).

(** A native primitive that throws at most on setting a denied header. *)
Definition accepts_safe_calls (th : XhrCall -> option exn) : Prop :=
  forall c,
    (forall k v, c = xhr_setRequestHeader k v ->
                 XHRBrowserRequestService.unsafe_header k = false) ->
    th c = None.

(** The calls of the executor when none of them throws. *)
Definition calls_to_send (options : RequestOptions.t) : list XhrCall :=
  ([xhr_open
      (match or_string (RequestOptions.type options) (Some "GET") with
       | Some m => m
       | None => "GET"
       end)
      (RequestOptions.url options) true
      (RequestOptions.user options) (RequestOptions.password options)]
   ++ match RequestOptions.headers options with
      | Some h => passed_through h
      | None => []
      end
   ++ [xhr_responseType "arraybuffer"]
   ++ match RequestOptions.timeout options with
      | Some ms => if ms =? 0 then [] else [xhr_timeout ms]
      | None => []
      end
   ++ [xhr_send (RequestOptions.data options)])%list.

(** The [abort] calls that a sequence of events causes. *)
Definition aborts (evs : list XhrEvent) : list XhrCall :=
  flat_map (fun ev => match ev with ev_cancel => [xhr_abort] | _ => [] end) evs.

(** The headers of an options object, [{}] when it has none. *)
Definition headers_or_empty (options : RequestOptions.t) : Headers :=
  match RequestOptions.headers options with
  | Some h => h
  | None => []
  end.

(** The context that the [onload] listener resolves with. *)
Definition loaded (status : Z) (allResponseHeaders : string) (response : list Z)
  : RequestContext.t :=
  RequestContext.mk
    (RequestContext.mk_res
       (XHRBrowserRequestService.getResponseHeaders allResponseHeaders)
       (Some status))
    (BinaryBuffer.wrap response).

(** A call of [setRequestHeader]. *)
Definition is_set_header (c : XhrCall) : bool :=
  match c with
  | xhr_setRequestHeader _ _ => true
  | _ => false
  end.

(** A call that comes before [send]. *)
Definition before_send (c : XhrCall) : bool :=
  match c with
  | xhr_send _ | xhr_abort => false
  | _ => true
  end.

(** A call that does not set a denied header. *)
Definition safe_call (c : XhrCall) : bool :=
  match c with
  | xhr_setRequestHeader k _ => negb (XHRBrowserRequestService.unsafe_header k)
  | _ => true
  end.

(** Whatever the native primitive does, [m] appends only calls that
    satisfy [P]. *)
Definition logs_only (P : XhrCall -> bool) {A : Type} (m : Exec A) : Prop :=
  forall th log, exists l,
    snd (m th log) = (log ++ l)%list /\ forallb P l = true.

(** When [m] throws, it has appended only calls that satisfy [P]. *)
Definition fails_within (P : XhrCall -> bool) {A : Type} (m : Exec A) : Prop :=
  forall th log e log',
    m th log = (inr e, log') ->
    exists l, log' = (log ++ l)%list /\ forallb P l = true.

(** More collaborators for concrete runs. *)
Module Scenario.

(** A peer that rejects every request. *)
Definition failing_peer : Peer :=
  {| ready := Some (Resolved tt);
     backend_request := fun _ => Some (Rejected (Error "ECONNREFUSED"));
     backend_resolveProxy := fun _ => Resolved None |}.

(** A peer whose preferences never get ready: [ready] rejects. *)
Definition unready_peer : Peer :=
  {| ready := Some (Rejected (Error "preferences failed"));
     backend_request := fun _ => None;
     backend_resolveProxy := fun _ => Resolved None |}.

(** A native primitive whose [open] throws. *)
Definition closed (evs : list XhrEvent) : Native :=
  {| throws := fun c =>
       match c with
       | xhr_open _ _ _ _ _ => Some (SyntaxError "Invalid URL")
       | _ => None
       end;
     events := evs |}.

End Scenario.

(** Every character of [s] satisfies [P]. *)
Fixpoint all_chars (P : ascii -> bool) (s : string) : bool :=
  match s with
  | EmptyString => true
  | String c r => P c && all_chars P r
  end.

Definition not_eol (c : ascii) : bool := negb (Worded.is_eol c).
Definition not_colon (c : ascii) : bool := negb (Ascii.eqb c colon).

(** What holds of every entry that [getResponseHeaders] makes. *)
Definition tidy (k v : string) : Prop :=
  toLowerCase k = k /\ trim k = k /\ trim v = v /\ k <> "__proto__".

(** "Every other header is passed through to the native primitive with
    its value", of the headers the caller supplies to a native request. *)
Definition caller_headers_passed (prim : Native) (s : Service)
  (options : RequestOptions.t) : Prop :=
  forall k v,
    In (k, v) (headers_or_empty options) ->
    ~ denied k ->
    In (xhr_setRequestHeader k v)
       (XHRBrowserRequestService.calls
          (snd (XHRBrowserRequestService.xhrRequest prim s options))).

(* ================================================================= *)
(** * Properties *)

(** ** Result model *)

Section ResultModel.

Import RequestContext.

Lemma isSuccess_status (h : Headers) (b : BinaryBuffer.t) (z : Z) :
  isSuccess (mk (mk_res h (Some z)) b)
  = ((200 <=? z) && (z <? 300)) || (z =? 1223).
Proof.
  unfold isSuccess; simpl.
  destruct (Z.eqb_spec z 0) as [-> | _]; reflexivity.
Qed.

(** C2. [isSuccess] is true exactly when a status code is there and it
    lies in [200,300) or is 1223; without a status code it is false. *)
Theorem isSuccess_iff (context : t) :
  (isSuccess context = true <->
   exists z, statusCode (res context) = Some z
             /\ (200 <= z < 300 \/ z = 1223))
  /\ (statusCode (res context) = None -> isSuccess context = false).
Proof.
  destruct context as [[h [z |]] b]; simpl; split.
  - rewrite isSuccess_status. split.
    + intros H. exists z. split; [reflexivity | lia].
    + intros (z' & E & H). injection E as <-. lia.
  - discriminate.
  - split; [discriminate | intros (z & E & _); discriminate].
  - reflexivity.
Qed.

Lemma isSuccess_iff_witness :
  isSuccess (Sample.context (Some 1223) []) = true
  /\ isSuccess (Sample.context None []) = false.
Proof.
  split.
  - apply (proj1 (isSuccess_iff (Sample.context (Some 1223) []))).
    exists 1223. split; [reflexivity | right; reflexivity].
  - apply (proj2 (isSuccess_iff (Sample.context None []))). reflexivity.
Defined.

Context `{TextDecoder}.

(** C3. [asText] rejects with the status code in the message when the
    context is no success, gives the empty string on 204 whatever the
    buffer holds, and the decoded buffer otherwise. *)
Theorem asText_cases (context : t) :
  (isSuccess context = false ->
   asText context
   = Rejected (Error ("Server returned "
                      ++ show_number (statusCode (res context)))))
  /\ (statusCode (res context) = Some 204 -> asText context = Resolved "")
  /\ (isSuccess context = true ->
      statusCode (res context) <> Some 204 ->
      asText context = Resolved (toString (buffer context))).
Proof.
  unfold asText, hasNoContent. split; [| split].
  - intros ->. reflexivity.
  - intros E. destruct context as [[h sc] b]; simpl in *; subst sc.
    reflexivity.
  - intros -> N. simpl.
    destruct (statusCode (res context)) as [z |]; [| reflexivity].
    destruct (Z.eqb_spec z 204) as [-> | _]; [now elim N | reflexivity].
Qed.

Context {T : Type} `{JsonParser T}.

(** C4. [asJson] rejects like [asText] when the context is no success;
    on a success, 204 included, it parses the decoded buffer, and a
    parse failure is rejected with the parser's message, a colon, a
    line feed and the text. *)
Theorem asJson_cases (context : t) :
  (isSuccess context = false ->
   asJson (T := T) context
   = Rejected (Error ("Server returned "
                      ++ show_number (statusCode (res context))))
   /\ asText context
      = Rejected (Error ("Server returned "
                         ++ show_number (statusCode (res context)))))
  /\ (isSuccess context = true ->
      forall v, JSON_parse (toString (buffer context)) = inl v ->
                asJson context = Resolved v)
  /\ (isSuccess context = true ->
      forall m, JSON_parse (T := T) (toString (buffer context)) = inr m ->
                asJson (T := T) context
                = Rejected (SyntaxError
                    (m ++ ":" ++ String LF "" ++ toString (buffer context))))
  /\ (statusCode (res context) = Some 204 ->
      asJson (T := T) context
      = match JSON_parse (toString (buffer context)) with
        | inl v => Resolved v
        | inr m => Rejected (SyntaxError
                     (m ++ ":" ++ String LF "" ++ toString (buffer context)))
        end).
Proof.
  unfold asJson, asText. split; [| split; [| split]].
  - intros ->. split; reflexivity.
  - intros -> v ->. reflexivity.
  - intros -> m ->. reflexivity.
  - intros E. destruct context as [[h sc] b]; simpl in *; subst sc.
    reflexivity.
Qed.

End ResultModel.

Lemma asText_cases_witness :
  RequestContext.asText (H := Sample.ascii_text)
    (Sample.context (Some 404) Sample.not_json)
  = Rejected (Error "Server returned 404")
  /\ RequestContext.asText (H := Sample.ascii_text)
       (Sample.context (Some 204) Sample.not_json)
     = Resolved ""
  /\ RequestContext.asText (H := Sample.ascii_text)
       (Sample.context (Some 200) Sample.not_json)
     = Resolved "not json".
Proof.
  split; [| split].
  - apply (proj1 (asText_cases (H := Sample.ascii_text)
                    (Sample.context (Some 404) Sample.not_json))).
    reflexivity.
  - apply (proj1 (proj2 (asText_cases (H := Sample.ascii_text)
                    (Sample.context (Some 204) Sample.not_json)))).
    reflexivity.
  - apply (proj2 (proj2 (asText_cases (H := Sample.ascii_text)
                    (Sample.context (Some 200) Sample.not_json)))).
    + reflexivity.
    + discriminate.
Defined.

Lemma asJson_cases_witness :
  RequestContext.asJson (H := Sample.ascii_text) (H0 := Sample.literal_parser)
    (Sample.context (Some 404) Sample.json_true)
  = Rejected (Error "Server returned 404")
  /\ RequestContext.asJson (H := Sample.ascii_text) (H0 := Sample.literal_parser)
       (Sample.context (Some 200) Sample.json_true)
     = Resolved true
  /\ RequestContext.asJson (H := Sample.ascii_text) (H0 := Sample.literal_parser)
       (Sample.context (Some 204) Sample.not_json)
     = Rejected (SyntaxError ("Unexpected token:" ++ String LF "not json")).
Proof.
  split; [| split].
  - apply (proj1 (asJson_cases (H := Sample.ascii_text)
                    (H0 := Sample.literal_parser)
                    (Sample.context (Some 404) Sample.json_true))).
    reflexivity.
  - apply (proj1 (proj2 (asJson_cases (H := Sample.ascii_text)
                    (H0 := Sample.literal_parser)
                    (Sample.context (Some 200) Sample.json_true))));
      reflexivity.
  - exact (proj1 (proj2 (proj2 (asJson_cases (H := Sample.ascii_text)
                    (H0 := Sample.literal_parser)
                    (Sample.context (Some 204) Sample.not_json))))
             eq_refl "Unexpected token" eq_refl).
Defined.

(** ** Configuration *)

(** C10. [configure] of the XHR service assigns the cached authorization
    exactly when the key [proxyAuthorization] is in the configuration (a
    present [undefined] clears it, an absent key leaves it), and always
    hands the whole configuration to the inherited [configure]. *)
Theorem configure_caches_authorization
  (config : RequestConfiguration.t) (s : Service) :
  let s' := XHRBrowserRequestService.configure config s in
  (forall v, RequestConfiguration.proxyAuthorization config = Present v ->
             authorization s' = v)
  /\ (RequestConfiguration.proxyAuthorization config = Present None ->
      authorization s' = None)
  /\ (RequestConfiguration.proxyAuthorization config = Absent ->
      authorization s' = authorization s)
  /\ (authorization s' <> authorization s ->
      has (RequestConfiguration.proxyAuthorization config) = true)
  /\ effects s' = (effects s ++ [peer_configure config])%list
  /\ s' = DefaultBrowserRequestService.configure config
            {| authorization := authorization s'; effects := effects s |}.
Proof.
  unfold XHRBrowserRequestService.configure,
    XHRBrowserRequestService.super_configure,
    DefaultBrowserRequestService.configure, emit.
  destruct (RequestConfiguration.proxyAuthorization config) as [| v] eqn:E;
    simpl.
  - split; [discriminate |]. split; [discriminate |]. split; [reflexivity |].
    split; [intros N; now elim N |]. split; reflexivity.
  - split; [intros v' [= <-]; reflexivity |].
    split; [intros [= ->]; reflexivity |].
    split; [discriminate |]. split; [reflexivity |]. split; reflexivity.
Qed.

Lemma configure_caches_authorization_witness :
  authorization
    (XHRBrowserRequestService.configure
       (RequestConfiguration.mk Absent (Present None) Absent)
       {| authorization := Some "Basic abc"; effects := [] |}) = None
  /\ authorization
       (XHRBrowserRequestService.configure
          (RequestConfiguration.mk (Present (Some "http://proxy:3128")) Absent Absent)
          {| authorization := Some "Basic abc"; effects := [] |})
     = Some "Basic abc".
Proof.
  split.
  - apply (proj1 (proj2 (configure_caches_authorization
             (RequestConfiguration.mk Absent (Present None) Absent)
             {| authorization := Some "Basic abc"; effects := [] |}))).
    reflexivity.
  - apply (proj1 (proj2 (proj2 (configure_caches_authorization
             (RequestConfiguration.mk (Present (Some "http://proxy:3128"))
                Absent Absent)
             {| authorization := Some "Basic abc"; effects := [] |})))).
    reflexivity.
Defined.

(** ** Preference changes *)

Section PreferenceChanges.

Import DefaultBrowserRequestService.

Variable this_configure : RequestConfiguration.t -> Service -> Service.

(** The listener on an event that holds one key. *)
Lemma init_http_proxy (c : PreferenceChange) (s : Service) (v : option string) :
  as_string (newValue c) = done v ->
  init this_configure [("http.proxy", c)] s
  = done (this_configure (RequestConfiguration.mk (Present v) Absent Absent) s).
Proof.
  intros E. unfold init, changed_config, newValue_at. simpl. rewrite E.
  reflexivity.
Qed.

Lemma init_http_proxyStrictSSL (c : PreferenceChange) (s : Service)
  (v : option bool) :
  as_boolean (newValue c) = done v ->
  init this_configure [("http.proxyStrictSSL", c)] s
  = done (this_configure (RequestConfiguration.mk Absent Absent (Present v)) s).
Proof.
  intros E. unfold init, changed_config, newValue_at. simpl. rewrite E.
  reflexivity.
Qed.

(** When both [http.proxyAuthorization] and [proxyAuthorization] are keys
    of the event, the new value of the second is what is configured. *)
Lemma init_reads_other_key (c c' : PreferenceChange) (s : Service)
  (v : option string) :
  as_string (newValue c') = done v ->
  init this_configure
    [("http.proxyAuthorization", c); ("proxyAuthorization", c')] s
  = done (this_configure (RequestConfiguration.mk Absent (Present v) Absent) s).
Proof.
  intros E. unfold init, changed_config, newValue_at. simpl. rewrite E.
  reflexivity.
Qed.

(** C8. On an event that holds only [http.proxyAuthorization] the listener
    reads [e['proxyAuthorization'].newValue], which throws a [TypeError],
    and [configure] is not called. *)
Theorem init_proxyAuthorization_throws (c : PreferenceChange) (s : Service) :
  init this_configure [("http.proxyAuthorization", c)] s = threw TypeError.
Proof. reflexivity. Qed.

End PreferenceChanges.

(** ** Request headers *)

Section RequestHeaders.

Import XHRBrowserRequestService.

Lemma unsafe_header_denied (k : string) : unsafe_header k = true <-> denied k.
Proof.
  unfold unsafe_header, denied.
  rewrite !orb_true_iff, !String.eqb_eq. tauto.
Qed.

Lemma unsafe_header_allowed (k : string) :
  unsafe_header k = false <-> ~ denied k.
Proof.
  rewrite <- unsafe_header_denied. destruct (unsafe_header k); split;
    congruence.
Qed.

Lemma get_In (h : Headers) (k v : string) :
  well_formed h -> In (k, v) h -> get h k = Some v.
Proof.
  unfold well_formed, keys.
  induction h as [| [k' v'] r IH]; simpl; intros ND HIn; [contradiction |].
  inversion ND as [| ? ? Hnot ND']; subst.
  destruct HIn as [[= -> ->] | HIn].
  - now rewrite String.eqb_refl.
  - destruct (String.eqb_spec k' k) as [-> | _]; [| auto].
    elim Hnot. change k with (fst (k, v)). now apply in_map.
Qed.

Lemma header_value_In (h : Headers) (k v : string) :
  well_formed h -> In (k, v) h -> header_value h k = v.
Proof.
  intros W HIn. unfold header_value. now rewrite (get_In h k v W HIn).
Qed.

Lemma accepts_set (th : XhrCall -> option exn) (k v : string) :
  accepts_safe_calls th -> unsafe_header k = false ->
  th (xhr_setRequestHeader k v) = None.
Proof.
  intros A U. apply A. intros k' v' [= <- <-]. exact U.
Qed.

(** The loop of [setRequestHeaders] over a part [l] of the headers. *)
Lemma for_of_headers (h : Headers) (th : XhrCall -> option exn) :
  accepts_safe_calls th ->
  forall (l : Headers) (log : list XhrCall),
    (forall k v, In (k, v) l -> header_value h k = v) ->
    for_of (keys l)
      (fun k => if unsafe_header k then eret tt
                else call (xhr_setRequestHeader k (header_value h k)))
      th log
    = (inl tt, (log ++ passed_through l)%list).
Proof.
  intros A. induction l as [| [k v] r IH]; intros log Hv.
  - simpl. unfold eret, passed_through. simpl. now rewrite app_nil_r.
  - simpl. unfold ebind at 1. unfold passed_through. simpl.
    destruct (unsafe_header k) eqn:U; simpl.
    + unfold eret at 1. apply IH. intros k' v' HIn. apply Hv. now right.
    + unfold call at 1. rewrite (accepts_set th k _ A U).
      rewrite (Hv k v (or_introl eq_refl)).
      rewrite IH by (intros k' v' HIn; apply Hv; now right).
      unfold passed_through. now rewrite <- app_assoc.
Qed.

Lemma setRequestHeaders_log (options : RequestOptions.t)
  (th : XhrCall -> option exn) (log : list XhrCall) :
  accepts_safe_calls th ->
  match RequestOptions.headers options with
  | Some h => well_formed h
  | None => True
  end ->
  setRequestHeaders options th log
  = (inl tt,
     (log ++ match RequestOptions.headers options with
             | Some h => passed_through h
             | None => []
             end)%list).
Proof.
  intros A W. unfold setRequestHeaders.
  destruct (RequestOptions.headers options) as [h |].
  - apply for_of_headers; [exact A |].
    intros k v HIn. now apply header_value_In.
  - unfold eret. now rewrite app_nil_r.
Qed.

Lemma In_passed_through (h : Headers) (k v : string) :
  In (xhr_setRequestHeader k v) (passed_through h)
  <-> In (k, v) h /\ unsafe_header k = false.
Proof.
  unfold passed_through. rewrite in_map_iff. split.
  - intros ([k' v'] & [= -> ->] & HIn). apply filter_In in HIn.
    simpl in HIn. destruct HIn as [HIn U]. split; [exact HIn |].
    now apply negb_true_iff.
  - intros [HIn U]. exists (k, v). split; [reflexivity |].
    apply filter_In. split; [exact HIn |]. simpl. now apply negb_true_iff.
Qed.

(** [setRequestHeaders] on the options it is handed: it raises nothing,
    even with a native primitive that refuses the denied names, sets no
    header named [User-Agent], [Accept-Encoding] or [Content-Length], and
    sets every other header of those options with its value. *)
Theorem setRequestHeaders_denylist (options : RequestOptions.t) (h : Headers)
  (th : XhrCall -> option exn) (log : list XhrCall) :
  RequestOptions.headers options = Some h ->
  well_formed h ->
  accepts_safe_calls th ->
  setRequestHeaders options th log = (inl tt, (log ++ passed_through h)%list)
  /\ (forall k v, In (k, v) h ->
        (In (xhr_setRequestHeader k v) (passed_through h) <-> ~ denied k))
  /\ (forall k v, In (xhr_setRequestHeader k v) (passed_through h) ->
        In (k, v) h /\ ~ denied k)
  /\ (forall c, In c (passed_through h) ->
        exists k v, c = xhr_setRequestHeader k v).
Proof.
  intros E W A. split; [| split; [| split]].
  - rewrite (setRequestHeaders_log options th log A); rewrite E; auto.
  - intros k v HIn. rewrite In_passed_through, unsafe_header_allowed. tauto.
  - intros k v HIn. apply In_passed_through in HIn.
    now rewrite <- unsafe_header_allowed.
  - intros c HIn. unfold passed_through in HIn. apply in_map_iff in HIn.
    destruct HIn as ([k v] & <- & _). now exists k, v.
Qed.

End RequestHeaders.

Lemma setRequestHeaders_denylist_witness :
  XHRBrowserRequestService.setRequestHeaders
    (Sample.get_x (Some [("User-Agent", "X"); ("X-Custom", "Y")]) None)
    (throws (Sample.strict [])) []
  = (inl tt, [xhr_setRequestHeader "X-Custom" "Y"]).
Proof.
  assert (W : well_formed [("User-Agent", "X"); ("X-Custom", "Y")]).
  { unfold well_formed. simpl. repeat constructor; simpl; intuition discriminate. }
  assert (A : accepts_safe_calls (throws (Sample.strict []))).
  { intros c Hc. destruct c; simpl; try reflexivity.
    rewrite (Hc name value eq_refl). reflexivity. }
  exact (proj1 (setRequestHeaders_denylist
                  (Sample.get_x (Some [("User-Agent", "X"); ("X-Custom", "Y")]) None)
                  [("User-Agent", "X"); ("X-Custom", "Y")]
                  (throws (Sample.strict [])) [] eq_refl W A)).
Defined.

(** ** The native attempt *)

Section NativeAttempt.

Import XHRBrowserRequestService.

Lemma In_keys_put (h : Headers) (k v k' : string) :
  In k' (keys (put h k v)) <-> In k' (keys h) \/ k' = k.
Proof.
  unfold keys. induction h as [| [k1 v1] r IH]; simpl.
  - intuition congruence.
  - destruct (String.eqb_spec k1 k) as [-> | N]; simpl.
    + intuition congruence.
    + rewrite IH. tauto.
Qed.

Lemma put_well_formed (h : Headers) (k v : string) :
  well_formed h -> well_formed (put h k v).
Proof.
  unfold well_formed. induction h as [| [k1 v1] r IH]; simpl; intros ND.
  - repeat constructor. simpl. tauto.
  - inversion ND as [| ? ? Hnot ND']; subst.
    destruct (String.eqb_spec k1 k) as [-> | N]; simpl.
    + constructor; assumption.
    + constructor; [| now apply IH].
      fold (keys (put r k v)). rewrite In_keys_put. intros [HIn | ->]; auto.
Qed.

Lemma In_put_same (h : Headers) (k v : string) : In (k, v) (put h k v).
Proof.
  induction h as [| [k1 v1] r IH]; simpl; [now left |].
  destruct (String.eqb_spec k1 k) as [-> | N]; simpl; [now left | now right].
Qed.

Lemma In_put_other (h : Headers) (k v k' w : string) :
  k' <> k -> In (k', w) h -> In (k', w) (put h k v).
Proof.
  intros N. induction h as [| [k1 v1] r IH]; simpl; [tauto |].
  intros [[= -> ->] | HIn].
  - destruct (String.eqb_spec k' k) as [-> | _]; [now elim N | now left].
  - destruct (String.eqb_spec k1 k) as [-> | _]; right; auto.
Qed.

Lemma truthy_string_iff (a : option string) :
  truthy_string a = true <-> exists v, a = Some v /\ v <> "".
Proof.
  destruct a as [[| c r] |]; simpl; split; try discriminate.
  - intros (v & [= <-] & N). now elim N.
  - intros _. exists (String c r). split; [reflexivity | discriminate].
  - reflexivity.
  - intros (v & E & _). discriminate.
Qed.

(** What [xhrRequest] does to the options object. *)
Lemma with_authorization_cases (s : Service) (options : RequestOptions.t) :
  (truthy_string (effective_authorization s options) = false ->
   with_authorization s options = options)
  /\ (forall a, effective_authorization s options = Some a -> a <> "" ->
        with_authorization s options
        = RequestOptions.set_headers options
            (put (headers_or_empty options) "Proxy-Authorization" a)).
Proof.
  unfold with_authorization, headers_or_empty, spread_with.
  destruct (effective_authorization s options) as [a |]; split.
  - intros ->. reflexivity.
  - intros a' [= <-] N. destruct a as [| c r]; [now elim N | reflexivity].
  - reflexivity.
  - discriminate.
Qed.

Lemma with_authorization_well_formed (s : Service) (options : RequestOptions.t) :
  well_formed (headers_or_empty options) ->
  well_formed (headers_or_empty (with_authorization s options)).
Proof.
  intros W. destruct (with_authorization_cases s options) as [Hno Hyes].
  destruct (truthy_string (effective_authorization s options)) eqn:T.
  - apply truthy_string_iff in T. destruct T as (a & E & N).
    rewrite (Hyes a E N). unfold headers_or_empty at 1. simpl.
    now apply put_well_formed.
  - now rewrite Hno.
Qed.

(** The executor on a native primitive that accepts what it is given. *)
Lemma executor_log (options : RequestOptions.t) (th : XhrCall -> option exn) :
  accepts_safe_calls th ->
  well_formed (headers_or_empty options) ->
  executor options th [] = (inl tt, calls_to_send options).
Proof.
  intros A W. unfold executor, calls_to_send.
  assert (C : forall c log,
             (forall k v, c <> xhr_setRequestHeader k v) ->
             call c th log = (inl tt, (log ++ [c])%list)).
  { intros c log N. unfold call. rewrite A; [reflexivity |].
    intros k v E. now elim (N k v). }
  unfold ebind. rewrite C by discriminate. simpl.
  rewrite (setRequestHeaders_log options th _ A).
  2:{ unfold headers_or_empty in W.
      destruct (RequestOptions.headers options); [exact W | exact I]. }
  rewrite C by discriminate.
  destruct (RequestOptions.timeout options) as [ms |]; simpl.
  - destruct (ms =? 0); simpl.
    + unfold eret. rewrite C by discriminate.
      f_equal; simpl; rewrite <- ?app_assoc; reflexivity.
    + rewrite C by discriminate. rewrite C by discriminate.
      f_equal; simpl; rewrite <- ?app_assoc; reflexivity.
  - unfold eret. rewrite C by discriminate.
    f_equal; simpl; rewrite <- ?app_assoc; reflexivity.
Qed.

Lemma settle_calls (f : Flight) (p : promise RequestContext.t) :
  calls (settle f p) = calls f.
Proof. unfold settle. destruct (settled f); reflexivity. Qed.

Lemma calls_run_events (options : RequestOptions.t) (evs : list XhrEvent) :
  forall f, calls (run_events options f evs) = (calls f ++ aborts evs)%list.
Proof.
  unfold run_events. induction evs as [| ev r IH]; intros f; simpl.
  - now rewrite app_nil_r.
  - rewrite IH. destruct ev; simpl; rewrite settle_calls; simpl;
      try reflexivity.
    now rewrite <- app_assoc.
Qed.

(** A settled promise stays as it is. *)
Lemma settled_stays (options : RequestOptions.t) (evs : list XhrEvent) :
  forall f p, settled f = Some p ->
              settled (run_events options f evs) = Some p.
Proof.
  unfold run_events. induction evs as [| ev r IH]; intros f p E; simpl.
  - exact E.
  - apply IH. destruct ev; unfold dispatch, settle; simpl; rewrite E;
      simpl; auto.
Qed.

Lemma xhrRequest_sent (prim : Native) (s : Service) (options : RequestOptions.t) :
  accepts_safe_calls (throws prim) ->
  well_formed (headers_or_empty options) ->
  let options' := with_authorization s options in
  xhrRequest prim s options
  = (options',
     run_events options'
       {| calls := calls_to_send options'; settled := None |} (events prim)).
Proof.
  intros A W. unfold xhrRequest, takeoff. simpl.
  rewrite (executor_log _ _ A (with_authorization_well_formed s options W)).
  reflexivity.
Qed.

End NativeAttempt.

(** ** Proxy authorization *)

Section ProxyAuthorization.

Import XHRBrowserRequestService.

Lemma passed_through_sent (options : RequestOptions.t) (c : XhrCall) :
  In c (passed_through (headers_or_empty options)) ->
  In c (calls_to_send options).
Proof.
  unfold calls_to_send, headers_or_empty. intros HIn.
  apply in_or_app. right. apply in_or_app. left.
  destruct (RequestOptions.headers options); exact HIn.
Qed.

End ProxyAuthorization.

(** C5, as it is worded, fails: after [configure({proxyAuthorization:
    ''})] the cached value is the empty string, and a request with
    [proxyAuthorization: 'Basic xyz'] in its options uses the latter. *)
Lemma cached_empty_authorization_yields :
  XHRBrowserRequestService.effective_authorization
    (XHRBrowserRequestService.configure
       (RequestConfiguration.mk Absent (Present (Some "")) Absent) Sample.fresh)
    (Sample.get_x None (Some "Basic xyz"))
  <> Worded.authorization_in_force
       (XHRBrowserRequestService.configure
          (RequestConfiguration.mk Absent (Present (Some "")) Absent) Sample.fresh)
       (Sample.get_x None (Some "Basic xyz")).
Proof. vm_compute. discriminate. Qed.

(** ** The moment the native promise settles *)

Section Settlement.

Import XHRBrowserRequestService.

Lemma takeoff_sent (prim : Native) (options : RequestOptions.t) :
  snd (takeoff prim options) = true ->
  settled (fst (takeoff prim options)) = None.
Proof.
  unfold takeoff. destruct (executor options (throws prim) []) as [[u | e] log];
    simpl; [reflexivity | discriminate].
Qed.

Lemma takeoff_thrown (prim : Native) (options : RequestOptions.t) :
  snd (takeoff prim options) = false ->
  exists e, settled (fst (takeoff prim options)) = Some (Rejected e).
Proof.
  unfold takeoff. destruct (executor options (throws prim) []) as [[u | e] log];
    simpl; [discriminate | intros _; now exists e].
Qed.

Lemma xhrRequest_flight (prim : Native) (s : Service) (options : RequestOptions.t) :
  let options' := with_authorization s options in
  snd (xhrRequest prim s options)
  = if snd (takeoff prim options')
    then run_events options' (fst (takeoff prim options')) (events prim)
    else fst (takeoff prim options').
Proof.
  unfold xhrRequest. simpl.
  destruct (takeoff prim (with_authorization s options)) as [f []]; reflexivity.
Qed.

Lemma fst_xhrRequest (prim : Native) (s : Service) (options : RequestOptions.t) :
  fst (xhrRequest prim s options) = with_authorization s options.
Proof.
  unfold xhrRequest. destruct (takeoff prim _) as [f []]; reflexivity.
Qed.

Lemma dispatch_settles (options : RequestOptions.t) (f : Flight) (ev : XhrEvent) :
  settled (dispatch options f ev) <> None.
Proof.
  destruct ev; unfold dispatch, settle; cbn [settled calls];
    destruct (settled f) eqn:S; cbn [settled]; rewrite ?S; discriminate.
Qed.

Lemma In_aborts (evs : list XhrEvent) (c : XhrCall) :
  In c (aborts evs) -> c = xhr_abort.
Proof.
  unfold aborts. rewrite in_flat_map. intros (ev & _ & HIn).
  destruct ev; simpl in HIn; intuition congruence.
Qed.

Lemma skipn_length_app {A : Type} (l m : list A) :
  skipn (List.length l) (l ++ m) = m.
Proof. induction l as [| a l IH]; simpl; [reflexivity | exact IH]. Qed.

Lemma emit_nil (s : Service) : emit s [] = s.
Proof. destruct s as [a e]. unfold emit. simpl. now rewrite app_nil_r. Qed.

Lemma afterwards_nil (run : Run) : afterwards run [] = run.
Proof.
  destruct run as [o oa sa]. unfold afterwards. simpl. now rewrite emit_nil.
Qed.

Lemma until_settled_settled (options : RequestOptions.t) (f : Flight)
  (evs : list XhrEvent) (p : promise RequestContext.t) :
  settled f = Some p -> until_settled options f evs = (f, evs).
Proof. intros E. destruct evs; simpl; [| rewrite E]; reflexivity. Qed.

(** A pending promise is settled by the next event. *)
Lemma until_settled_first (options : RequestOptions.t) (f : Flight)
  (ev : XhrEvent) (rest : list XhrEvent) :
  settled f = None ->
  until_settled options f (ev :: rest) = (dispatch options f ev, rest).
Proof.
  intros E. simpl. rewrite E.
  destruct (settled (dispatch options f ev)) as [p |] eqn:D.
  - now apply (until_settled_settled options _ rest p).
  - now elim (dispatch_settles options f ev).
Qed.

Lemma until_settled_run (options : RequestOptions.t) (evs : list XhrEvent) :
  forall f,
    run_events options (fst (until_settled options f evs))
               (snd (until_settled options f evs))
    = run_events options f evs.
Proof.
  induction evs as [| ev rest IH]; intros f; simpl; [reflexivity |].
  destruct (settled f); [reflexivity |]. apply IH.
Qed.

Lemma until_settled_pending (options : RequestOptions.t) (evs : list XhrEvent) :
  forall f,
    settled (fst (until_settled options f evs)) = None ->
    snd (until_settled options f evs) = [].
Proof.
  induction evs as [| ev rest IH]; intros f; simpl; [reflexivity |].
  destruct (settled f) eqn:E; simpl; [congruence | apply IH].
Qed.

(** The whole flight is the flight at settlement and the later events. *)
Lemma settlement_whole (prim : Native) (s : Service) (options : RequestOptions.t) :
  snd (xhrRequest prim s options)
  = run_events (with_authorization s options)
      (fst (settlement prim s options)) (snd (settlement prim s options)).
Proof.
  rewrite xhrRequest_flight. unfold settlement.
  destruct (takeoff prim (with_authorization s options)) as [f []]; simpl.
  - now rewrite until_settled_run.
  - reflexivity.
Qed.

Lemma settlement_settled (prim : Native) (s : Service) (options : RequestOptions.t) :
  settled (fst (settlement prim s options))
  = settled (snd (xhrRequest prim s options)).
Proof.
  rewrite settlement_whole.
  destruct (settled (fst (settlement prim s options))) as [p |] eqn:E.
  - symmetry. now apply settled_stays.
  - assert (L : snd (settlement prim s options) = []).
    { revert E. unfold settlement.
      destruct (takeoff prim (with_authorization s options)) as [f []];
        simpl; [apply until_settled_pending | reflexivity]. }
    rewrite L. simpl. now rewrite E.
Qed.

Lemma settlement_calls (prim : Native) (s : Service) (options : RequestOptions.t) :
  calls (snd (xhrRequest prim s options))
  = (calls (fst (settlement prim s options))
     ++ aborts (snd (settlement prim s options)))%list.
Proof. rewrite settlement_whole. apply calls_run_events. Qed.

Lemma settlement_unsent (prim : Native) (s : Service) (options : RequestOptions.t) :
  snd (takeoff prim (with_authorization s options)) = false ->
  settlement prim s options = (snd (xhrRequest prim s options), []).
Proof.
  intros U. rewrite xhrRequest_flight. unfold settlement. revert U.
  destruct (takeoff prim (with_authorization s options)) as [f []]; simpl;
    [discriminate | reflexivity].
Qed.

(** [request], with the flight at settlement and the aborts that come
    later written out. *)
Lemma request_unfold (peer : Peer) (prim : Native)
  (options : RequestOptions.t) (s : Service) :
  let options' := with_authorization s options in
  let f := fst (settlement prim s options) in
  let late := aborts (snd (settlement prim s options)) in
  let s' := emit s (map native (calls f)) in
  request peer prim options s
  = match settled (snd (xhrRequest prim s options)) with
    | Some (Resolved xhrResult) =>
        if is_405 xhrResult
        then afterwards (DefaultBrowserRequestService.request peer options' s')
                        late
        else afterwards {| outcome := Some (Resolved xhrResult);
                           options_after := options';
                           service_after := s' |} late
    | Some (Rejected _) =>
        afterwards (DefaultBrowserRequestService.request peer options' s') late
    | None =>
        {| outcome := None; options_after := options'; service_after := s' |}
    end.
Proof.
  intros options' f late s'. unfold request, super_request.
  pose proof (fst_xhrRequest prim s options) as FO.
  pose proof (settlement_calls prim s options) as SC.
  pose proof (settlement_settled prim s options) as SS.
  destruct (xhrRequest prim s options) as [o' whole]. cbn [fst snd] in *.
  subst o'. fold options' f. fold f in SC, SS. rewrite SC, skipn_length_app, SS.
  reflexivity.
Qed.

End Settlement.

(** ** Fallback to the delegating strategy *)

Section Fallback.

Import XHRBrowserRequestService.

Lemma with_authorization_frame (s : Service) (options : RequestOptions.t) :
  let options' := with_authorization s options in
  RequestOptions.type options' = RequestOptions.type options
  /\ RequestOptions.url options' = RequestOptions.url options
  /\ RequestOptions.user options' = RequestOptions.user options
  /\ RequestOptions.password options' = RequestOptions.password options
  /\ RequestOptions.timeout options' = RequestOptions.timeout options
  /\ RequestOptions.data options' = RequestOptions.data options
  /\ RequestOptions.followRedirects options'
     = RequestOptions.followRedirects options
  /\ RequestOptions.proxyAuthorization options'
     = RequestOptions.proxyAuthorization options.
Proof.
  unfold with_authorization.
  destruct (effective_authorization s options) as [[| c r] |]; simpl;
    repeat split.
Qed.

(** After a 405 or a rejection, [request] is [super.request] from the
    moment of settlement, followed by the aborts of later events. *)
Lemma request_delegates (peer : Peer) (prim : Native)
  (options : RequestOptions.t) (s : Service) :
  let f := snd (xhrRequest prim s options) in
  ((exists r, settled f = Some (Resolved r)
              /\ RequestContext.statusCode (RequestContext.res r) = Some 405)
   \/ (exists e, settled f = Some (Rejected e))) ->
  request peer prim options s
  = afterwards
      (DefaultBrowserRequestService.request peer (with_authorization s options)
         (emit s (map native (calls (fst (settlement prim s options))))))
      (aborts (snd (settlement prim s options))).
Proof.
  intros f Hend. rewrite request_unfold. cbn zeta. fold f.
  destruct Hend as [(r & E & E405) | (e & E)]; rewrite E.
  - unfold is_405. rewrite E405. reflexivity.
  - reflexivity.
Qed.

(** The effects of the inherited [request]. *)
Lemma delegate_effects (peer : Peer) (options : RequestOptions.t) (s : Service) :
  let run := DefaultBrowserRequestService.request peer options s in
  authorization (service_after run) = authorization s
  /\ options_after run = options
  /\ ((exists u, ready peer = Some (Resolved u))
      /\ outcome run
         = option_map
             (fun p => then_ p DefaultBrowserRequestService.transformBackendResponse)
             (backend_request peer options)
      /\ effects (service_after run) = (effects s ++ [peer_request options])%list
      \/ (ready peer = None \/ exists e, ready peer = Some (Rejected e))
         /\ outcome run = match ready peer with
                          | Some (Rejected e) => Some (Rejected e)
                          | _ => None
                          end
         /\ effects (service_after run) = effects s).
Proof.
  unfold DefaultBrowserRequestService.request.
  destruct (ready peer) as [[u | e] |]; simpl;
    (split; [reflexivity |]); (split; [reflexivity |]).
  - left. split; [now exists u |]. split; reflexivity.
  - right. split; [right; now exists e |]. split; reflexivity.
  - right. split; [now left |]. split; reflexivity.
Qed.

(** C1, as the code has it. When the native attempt ends with status 405
    or rejects, [request] is the inherited [request] on the options
    object as [xhrRequest] left it, run when the native promise settles:
    its result is the result, and with the preferences ready the peer is
    asked with that object after the native calls made until then and
    before the aborts of later events.  The object has every field of
    the caller's but [headers]; its headers are the caller's when no
    non-empty authorization is in force, and else the caller's with
    [Proxy-Authorization] put. *)
Theorem request_falls_back (peer : Peer) (prim : Native)
  (options : RequestOptions.t) (s : Service) :
  let options' := fst (xhrRequest prim s options) in
  let f := snd (xhrRequest prim s options) in
  let at_end := fst (settlement prim s options) in
  let later := snd (settlement prim s options) in
  let run := request peer prim options s in
  ((exists r, settled f = Some (Resolved r)
              /\ RequestContext.statusCode (RequestContext.res r) = Some 405)
   \/ (exists e, settled f = Some (Rejected e))) ->
  run = afterwards
          (DefaultBrowserRequestService.request peer options'
             (emit s (map native (calls at_end))))
          (aborts later)
  /\ outcome run
     = outcome (DefaultBrowserRequestService.request peer options' s)
  /\ (forall u, ready peer = Some (Resolved u) ->
      outcome run
      = option_map
          (fun p => then_ p DefaultBrowserRequestService.transformBackendResponse)
          (backend_request peer options')
      /\ effects (service_after run)
         = (effects s ++ map native (calls at_end) ++ [peer_request options']
            ++ map native (aborts later))%list)
  /\ (RequestOptions.type options' = RequestOptions.type options
      /\ RequestOptions.url options' = RequestOptions.url options
      /\ RequestOptions.user options' = RequestOptions.user options
      /\ RequestOptions.password options' = RequestOptions.password options
      /\ RequestOptions.timeout options' = RequestOptions.timeout options
      /\ RequestOptions.data options' = RequestOptions.data options
      /\ RequestOptions.followRedirects options'
         = RequestOptions.followRedirects options
      /\ RequestOptions.proxyAuthorization options'
         = RequestOptions.proxyAuthorization options)
  /\ (truthy_string (effective_authorization s options) = false ->
      RequestOptions.headers options' = RequestOptions.headers options
      /\ options' = options)
  /\ (forall a, effective_authorization s options = Some a -> a <> "" ->
        RequestOptions.headers options'
        = Some (put (headers_or_empty options) "Proxy-Authorization" a)).
Proof.
  intros options' f at_end later run Hend.
  assert (R : run = afterwards
                      (DefaultBrowserRequestService.request peer options'
                         (emit s (map native (calls at_end))))
                      (aborts later)).
  { subst run options'. rewrite fst_xhrRequest.
    now apply request_delegates. }
  split; [exact R |]. split; [| split].
  - rewrite R. unfold afterwards, DefaultBrowserRequestService.request.
    destruct (ready peer) as [[u | e] |]; reflexivity.
  - intros u Rdy. rewrite R.
    unfold afterwards, DefaultBrowserRequestService.request.
    rewrite Rdy. cbn [outcome service_after emit effects].
    split; [reflexivity |]. now rewrite <- !app_assoc.
  - subst options'. rewrite fst_xhrRequest.
    split; [exact (with_authorization_frame s options) |].
    destruct (with_authorization_cases s options) as [Hno Hyes]. split.
    + intros T. rewrite (Hno T). split; reflexivity.
    + intros a E N. rewrite (Hyes a E N). reflexivity.
Qed.

(** A pending flight followed by a cancellation settles there. *)
Lemma settlement_at_cancel (prim : Native) (s : Service)
  (options : RequestOptions.t) (pre post : list XhrEvent) :
  let options' := with_authorization s options in
  let f1 := run_events options' (fst (takeoff prim options')) pre in
  snd (takeoff prim options') = true ->
  events prim = (pre ++ ev_cancel :: post)%list ->
  settled f1 = None ->
  settlement prim s options = (dispatch options' f1 ev_cancel, post).
Proof.
  intros options' f1 Sent Evs Pending. unfold settlement. fold options'.
  subst f1. pose proof (takeoff_sent prim options' Sent) as P0.
  destruct (takeoff prim options') as [f0 sent]. cbn [fst snd] in *.
  subst sent. rewrite Evs. destruct pre as [| ev pre].
  - simpl app. simpl run_events in *. now apply until_settled_first.
  - exfalso. unfold run_events in Pending. simpl in Pending.
    destruct (settled (dispatch options' f0 ev)) as [p |] eqn:D.
    + pose proof (settled_stays options' pre _ p D) as St.
      unfold run_events in St. rewrite St in Pending. discriminate.
    + now elim (dispatch_settles options' f0 ev).
Qed.

(** C9. While the native promise is pending, the firing of the token
    aborts the native call and rejects the promise at once; no later
    event changes that, and the fallback of [request] starts from there,
    after the abort and before what later events cause. *)
Theorem cancellation_rejects_first (peer : Peer) (prim : Native)
  (options : RequestOptions.t) (s : Service) (pre post : list XhrEvent) :
  let options' := with_authorization s options in
  let f0 := fst (takeoff prim options') in
  let f1 := run_events options' f0 pre in
  let f2 := dispatch options' f1 ev_cancel in
  let f := snd (xhrRequest prim s options) in
  snd (takeoff prim options') = true ->
  events prim = (pre ++ ev_cancel :: post)%list ->
  settled f1 = None ->
  calls f2 = (calls f1 ++ [xhr_abort])%list
  /\ settled f2 = Some (Rejected NoReason)
  /\ f = run_events options' f2 post
  /\ settled f = Some (Rejected NoReason)
  /\ (exists later, calls f = (calls f1 ++ xhr_abort :: later)%list)
  /\ request peer prim options s
     = afterwards
         (DefaultBrowserRequestService.request peer options'
            (emit s (map native (calls f2))))
         (aborts post)
  /\ (aborts post = [] ->
      request peer prim options s
      = DefaultBrowserRequestService.request peer options'
          (emit s (map native (calls f)))).
Proof.
  intros options' f0 f1 f2 f Sent Evs Pending.
  assert (C2 : calls f2 = (calls f1 ++ [xhr_abort])%list).
  { subst f2. unfold dispatch, settle. simpl. rewrite Pending. reflexivity. }
  assert (S2 : settled f2 = Some (Rejected NoReason)).
  { subst f2. unfold dispatch, settle. simpl. rewrite Pending. reflexivity. }
  assert (F : f = run_events options' f2 post).
  { subst f f2 f1 f0. unfold xhrRequest. fold options'.
    destruct (takeoff prim options') as [fl sent]. cbn [fst snd] in *.
    subst sent. cbn [snd]. rewrite Evs. unfold run_events.
    rewrite fold_left_app. reflexivity. }
  assert (SF : settled f = Some (Rejected NoReason)).
  { rewrite F. now apply settled_stays. }
  split; [exact C2 |]. split; [exact S2 |]. split; [exact F |].
  split; [exact SF |]. split.
  - exists (aborts post). rewrite F, calls_run_events, C2.
    now rewrite <- app_assoc.
  - assert (R : request peer prim options s
                = afterwards
                    (DefaultBrowserRequestService.request peer options'
                       (emit s (map native (calls f2))))
                    (aborts post)).
    { rewrite (request_delegates peer prim options s).
      - rewrite (settlement_at_cancel prim s options pre post Sent Evs Pending).
        reflexivity.
      - right. now exists NoReason. }
    split; [exact R |].
    intros NoAbort. rewrite R, NoAbort, afterwards_nil.
    rewrite F, calls_run_events, NoAbort, app_nil_r. reflexivity.
Qed.

End Fallback.

Lemma request_falls_back_witness :
  effects
    (service_after
       (XHRBrowserRequestService.request Sample.echo_peer
          (Sample.quiet [ev_load 405 "" []; ev_cancel]) (Sample.get_x None None)
          Sample.fresh))
  = [native (xhr_open "GET" "http://x/" true None None);
     native (xhr_responseType "arraybuffer");
     native (xhr_send None);
     peer_request (Sample.get_x None None);
     native xhr_abort].
Proof.
  refine (proj2 (proj1 (proj2 (proj2
            (request_falls_back Sample.echo_peer
               (Sample.quiet [ev_load 405 "" []; ev_cancel])
               (Sample.get_x None None) Sample.fresh _))) tt eq_refl)).
  left. eexists. split; reflexivity.
Defined.

(** C1, as it is worded, fails: with [Basic abc] cached and a native
    answer 405, the peer is asked with options that carry a
    [Proxy-Authorization] header the caller did not supply. *)
Lemma fallback_options_modified :
  ~ Worded.delegates_unmodified Sample.echo_peer
      (Sample.quiet [ev_load 405 "" []]) (Sample.get_x None None)
      (XHRBrowserRequestService.configure
         (RequestConfiguration.mk Absent (Present (Some "Basic abc")) Absent)
         Sample.fresh).
Proof.
  unfold Worded.delegates_unmodified. intros [HIn _].
  vm_compute in HIn. decompose [or] HIn; try discriminate; contradiction.
Qed.

Lemma cancellation_rejects_first_witness :
  XHRBrowserRequestService.settled
    (snd (XHRBrowserRequestService.xhrRequest
            (Sample.quiet [ev_cancel; ev_load 200 "" []]) Sample.fresh
            (Sample.get_x None None)))
  = Some (Rejected NoReason).
Proof.
  exact (proj1 (proj2 (proj2 (proj2
           (cancellation_rejects_first Sample.echo_peer
              (Sample.quiet [ev_cancel; ev_load 200 "" []])
              (Sample.get_x None None) Sample.fresh [] [ev_load 200 "" []]
              eq_refl eq_refl eq_refl))))).
Defined.

(** ** Response headers *)

Section ResponseHeaders.

Import XHRBrowserRequestService.

Lemma size_append (p r : string) : size (p ++ r) = size p + size r.
Proof.
  unfold size. induction p as [| c p IH]; simpl String.length.
  - simpl. lia.
  - change ((String c p ++ r)%string) with (String c (p ++ r)).
    simpl String.length. lia.
Qed.

Lemma size_nonneg (s : string) : 0 <= size s.
Proof. unfold size. lia. Qed.

Lemma substring_all (s : string) : substring 0 (String.length s) s = s.
Proof. induction s as [| c s IH]; simpl; [reflexivity | now rewrite IH]. Qed.

Lemma substring_none (s : string) : substring 0 0 s = "".
Proof. destruct s; reflexivity. Qed.

Lemma substring_prefix (p r : string) :
  substring 0 (String.length p) (p ++ r) = p.
Proof.
  induction p as [| c p IH]; simpl.
  - apply substring_none.
  - now rewrite IH.
Qed.

Lemma substring_skip (p r : string) (n m : nat) :
  substring (String.length p + n) m (p ++ r) = substring n m r.
Proof. induction p as [| c p IH]; simpl; [reflexivity | exact IH]. Qed.

Lemma substr_start_inside (s : string) (start : Z) :
  0 <= start <= size s -> substr_start s start = start.
Proof.
  intros B. unfold substr_start.
  destruct (Z.ltb_spec start 0); lia.
Qed.

(** [substr] and [substr_to_end] around a position inside the string. *)
Lemma substr_before (p r : string) : substr (p ++ r) 0 (size p) = p.
Proof.
  pose proof (size_nonneg p). pose proof (size_nonneg r).
  unfold substr. rewrite substr_start_inside by (rewrite size_append; lia).
  rewrite size_append.
  replace (Z.to_nat (Z.min (Z.max (size p) 0) (size p + size r - 0)))
    with (String.length p) by (unfold size in *; lia).
  apply substring_prefix.
Qed.

Lemma substr_after (p q : string) (c : ascii) :
  substr_to_end (p ++ String c q) (size p + 1) = q.
Proof.
  pose proof (size_nonneg p). pose proof (size_nonneg q).
  assert (E : size (p ++ String c q) = size p + 1 + size q).
  { rewrite size_append. unfold size. simpl String.length. lia. }
  unfold substr_to_end. rewrite substr_start_inside by lia. rewrite E.
  replace (Z.to_nat (size p + 1)) with (String.length p + 1)%nat
    by (unfold size in *; lia).
  replace (Z.to_nat (size p + 1 + size q - (size p + 1)))
    with (String.length q) by (unfold size in *; lia).
  rewrite substring_skip. simpl. apply substring_all.
Qed.

Lemma substr_minus_one (s : string) : substr s 0 (-1) = "".
Proof.
  pose proof (size_nonneg s).
  unfold substr. rewrite substr_start_inside by lia.
  replace (Z.to_nat (Z.min (Z.max (-1) 0) (size s - 0))) with 0%nat by lia.
  apply substring_none.
Qed.

Lemma substr_from_zero (s : string) : substr_to_end s 0 = s.
Proof.
  pose proof (size_nonneg s).
  unfold substr_to_end. rewrite substr_start_inside by lia.
  replace (Z.to_nat (size s - 0)) with (String.length s)
    by (unfold size in *; lia).
  apply substring_all.
Qed.

(** [indexOf] finds the place where [cut] cuts. *)
Lemma cut_found (s p q : string) :
  Worded.cut s = Some (p, q) ->
  s = p ++ String colon q /\ forall i, indexOf_from colon s i = i + size p.
Proof.
  revert p q. induction s as [| a s IH]; simpl; intros p q E; [discriminate |].
  destruct (Ascii.eqb_spec a colon) as [-> | N].
  - injection E as <- <-. split; [reflexivity |].
    intros i. unfold size. simpl. lia.
  - destruct (Worded.cut s) as [[p' q'] |]; [| discriminate].
    injection E as <- <-. destruct (IH p' q' eq_refl) as [-> Hi].
    split; [reflexivity |].
    intros i. rewrite Hi. unfold size. simpl String.length. lia.
Qed.

Lemma cut_missing (s : string) :
  Worded.cut s = None -> forall i, indexOf_from colon s i = -1.
Proof.
  induction s as [| a s IH]; simpl; intros E i; [reflexivity |].
  destruct (Ascii.eqb a colon); [discriminate |].
  destruct (Worded.cut s) as [[p q] |]; [discriminate |]. now apply IH.
Qed.

Lemma add_line_name_value (h : Headers) (line : string) :
  nonempty line = true ->
  add_line h line
  = assign h (fst (Worded.name_value line)) (snd (Worded.name_value line)).
Proof.
  intros NE. unfold add_line, Worded.name_value, indexOf. rewrite NE.
  destruct (Worded.cut line) as [[p q] |] eqn:E.
  - destruct (cut_found line p q E) as [-> Hi]. rewrite Hi. simpl fst. simpl snd.
    simpl (0 + size p). now rewrite substr_before, substr_after.
  - rewrite (cut_missing line E). simpl (-1 + 1).
    rewrite substr_minus_one, substr_from_zero. reflexivity.
Qed.

Lemma fold_add_line (l : list string) :
  forall h,
    fold_left add_line l h
    = fold_left
        (fun h line =>
           assign h (fst (Worded.name_value line)) (snd (Worded.name_value line)))
        (filter nonempty l) h.
Proof.
  induction l as [| line l IH]; intros h; simpl; [reflexivity |].
  destruct (nonempty line) eqn:NE; simpl.
  - rewrite <- add_line_name_value by exact NE. apply IH.
  - unfold add_line at 2. rewrite NE. apply IH.
Qed.

Lemma filter_piece (cur : list ascii) :
  filter nonempty [string_of_list_ascii (rev cur)] = Worded.flush cur.
Proof.
  destruct cur as [| c cur]; [reflexivity |].
  unfold Worded.flush. simpl rev.
  destruct (rev cur) as [| d l]; simpl; reflexivity.
Qed.

Lemma split_lines_runs (n : nat) :
  forall s cur, (String.length s <= n)%nat ->
    filter nonempty (split_lines_acc s cur) = Worded.runs_acc s cur.
Proof.
  induction n as [| n IH]; intros s cur Hn.
  - destruct s; [| simpl in Hn; lia]. simpl. apply filter_piece.
  - destruct s as [| c r]; [simpl; apply filter_piece |].
    simpl in Hn. assert (Hr : (String.length r <= n)%nat) by lia.
    cbn [split_lines_acc Worded.runs_acc]. unfold Worded.is_eol.
    pose proof (filter_piece cur) as FP. simpl filter in FP.
    destruct (Ascii.eqb c CR) eqn:ECR; simpl orb.
    + destruct r as [| c' r'].
      * simpl. rewrite <- FP.
        destruct (nonempty (string_of_list_ascii (rev cur))); reflexivity.
      * destruct (Ascii.eqb c' LF) eqn:ELF.
        -- cbn [Worded.runs_acc]. unfold Worded.is_eol. rewrite ELF.
           rewrite orb_true_r. simpl Worded.flush at 2. simpl app at 2.
           simpl in Hr. rewrite <- (IH r' []) by lia. rewrite <- FP.
           simpl filter.
           destruct (nonempty (string_of_list_ascii (rev cur))); reflexivity.
        -- rewrite <- (IH (String c' r') []) by exact Hr. rewrite <- FP.
           simpl filter.
           destruct (nonempty (string_of_list_ascii (rev cur))); reflexivity.
    + destruct (Ascii.eqb c LF) eqn:ELF.
      * rewrite <- (IH r []) by exact Hr. rewrite <- FP. simpl filter.
        destruct (nonempty (string_of_list_ascii (rev cur))); reflexivity.
      * apply IH. exact Hr.
Qed.

(** C7, as the code has it. [getResponseHeaders] splits the block at line
    endings, drops empty lines, cuts each line at its first colon (a line
    without one has the empty name), trims and lower-cases the name and
    trims the value, whose case it keeps: the block of the example gives
    [content-type: text/plain] and [x-foo: Bar]. *)
Theorem getResponseHeaders_parses (raw : string) :
  getResponseHeaders raw = Worded.parse_headers raw
  /\ getResponseHeaders
       ("Content-Type: text/plain" ++ Sample.crlf ++ "X-Foo: Bar" ++ Sample.crlf)
     = [("content-type", "text/plain"); ("x-foo", "Bar")].
Proof.
  split; [| reflexivity].
  unfold getResponseHeaders, Worded.parse_headers, Worded.lines, split_lines.
  rewrite fold_add_line.
  now rewrite (split_lines_runs (String.length raw) raw []).
Qed.

End ResponseHeaders.

(** C7, as it is worded, fails on its example: the value of [x-foo] is
    [Bar], not [bar]. *)
Lemma header_value_keeps_case :
  ~ (forall k,
       get (XHRBrowserRequestService.getResponseHeaders
              ("Content-Type: text/plain" ++ Sample.crlf
               ++ "X-Foo: Bar" ++ Sample.crlf)) k
       = get [("content-type", "text/plain"); ("x-foo", "bar")] k).
Proof. intros E. specialize (E "x-foo"). vm_compute in E. discriminate. Qed.

(* ================================================================= *)
(** * Further properties of the two services *)

(** ** The native attempt, event by event *)

Section NativeOutcome.

Import XHRBrowserRequestService.

(** A request that was sent settles at its first event. *)
Lemma settlement_first (prim : Native) (s : Service)
  (options : RequestOptions.t) (ev : XhrEvent) (rest : list XhrEvent) :
  let options' := with_authorization s options in
  snd (takeoff prim options') = true ->
  events prim = ev :: rest ->
  settlement prim s options
  = (dispatch options' (fst (takeoff prim options')) ev, rest).
Proof.
  intros options' Sent Evs. unfold settlement. fold options'.
  pose proof (takeoff_sent prim options' Sent) as P0.
  destruct (takeoff prim options') as [f0 sent]. cbn [fst snd] in *.
  subst sent. rewrite Evs. now apply until_settled_first.
Qed.

(** X1. After the first event the promise is settled, and whatever comes
    later changes nothing: the first event alone decides. *)
Theorem first_event_decides (options : RequestOptions.t) (f : Flight)
  (ev : XhrEvent) (rest : list XhrEvent) :
  settled (run_events options f (ev :: rest)) = settled (dispatch options f ev)
  /\ settled (dispatch options f ev) <> None.
Proof.
  split; [| apply dispatch_settles].
  destruct (settled (dispatch options f ev)) as [p |] eqn:E.
  - unfold run_events. simpl. now apply settled_stays.
  - now elim (dispatch_settles options f ev).
Qed.

(** X2. A native answer other than 405 that comes first is the result of
    [request] as it is: status, parsed headers and bytes.  The peer is not
    asked, ready or not, and events that follow add at most [abort]
    calls. *)
Theorem native_result_returned (peer : Peer) (prim : Native)
  (options : RequestOptions.t) (s : Service) (z : Z) (raw : string)
  (response : list Z) (rest : list XhrEvent) :
  let options' := with_authorization s options in
  let run := request peer prim options s in
  snd (takeoff prim options') = true ->
  events prim = ev_load z raw response :: rest ->
  z <> 405 ->
  outcome run = Some (Resolved (loaded z raw response))
  /\ effects (service_after run)
     = (effects s
        ++ map native (calls (fst (takeoff prim options')) ++ aborts rest))%list
  /\ authorization (service_after run) = authorization s.
Proof.
  intros options' run Sent Evs N405.
  pose proof (takeoff_sent prim options' Sent) as Pending.
  pose proof (settlement_first prim s options _ _ Sent Evs) as SE.
  fold options' in SE.
  pose proof (settlement_settled prim s options) as SS.
  rewrite SE in SS. cbn [fst] in SS.
  assert (St : settled (snd (xhrRequest prim s options))
               = Some (Resolved (loaded z raw response))).
  { rewrite <- SS. unfold dispatch, settle. rewrite Pending. reflexivity. }
  subst run. rewrite request_unfold. cbn zeta. rewrite St, SE. cbn [fst snd].
  unfold is_405, loaded. cbn [RequestContext.statusCode RequestContext.res].
  destruct (Z.eqb_spec z 405) as [-> | _]; [now elim N405 |].
  unfold afterwards. cbn [outcome service_after emit effects authorization].
  unfold dispatch. rewrite settle_calls, map_app, <- app_assoc. repeat split.
Qed.

(** X3. When the native primitive delivers no event at all, [request]
    never settles and the peer is never asked: the fallback needs a
    rejection or a 405. *)
Theorem silent_native_never_settles (peer : Peer) (prim : Native)
  (options : RequestOptions.t) (s : Service) :
  let options' := with_authorization s options in
  let run := request peer prim options s in
  snd (takeoff prim options') = true ->
  events prim = [] ->
  outcome run = None
  /\ effects (service_after run)
     = (effects s ++ map native (calls (fst (takeoff prim options'))))%list.
Proof.
  intros options' run Sent Evs.
  pose proof (takeoff_sent prim options' Sent) as Pending.
  assert (SE : settlement prim s options = (fst (takeoff prim options'), [])).
  { unfold settlement. fold options'. revert Sent.
    destruct (takeoff prim options') as [f0 sent]; simpl. intros ->.
    now rewrite Evs. }
  pose proof (settlement_settled prim s options) as SS.
  rewrite SE in SS. cbn [fst] in SS. rewrite Pending in SS.
  subst run. rewrite request_unfold. cbn zeta. rewrite <- SS, SE.
  split; reflexivity.
Qed.

(** X4. A rejection of [request] comes from the fallback alone: the
    native attempt had ended with a rejection or a 405, and the reason
    is the one of [preferenceService.ready] or, with the preferences
    ready, the one the peer gave.  The reasons of the native attempt
    (error, time-out, cancellation, a call that throws) never reach the
    caller. *)
Theorem rejection_is_from_delegate (peer : Peer) (prim : Native)
  (options : RequestOptions.t) (s : Service) (e : exn) :
  outcome (request peer prim options s) = Some (Rejected e) ->
  ((exists r, settled (snd (xhrRequest prim s options)) = Some (Resolved r)
              /\ is_405 r = true)
   \/ exists e', settled (snd (xhrRequest prim s options)) = Some (Rejected e'))
  /\ (ready peer = Some (Rejected e)
      \/ (exists u, ready peer = Some (Resolved u))
         /\ backend_request peer (with_authorization s options)
            = Some (Rejected e)).
Proof.
  rewrite request_unfold. cbn zeta.
  set (s' := emit s _). set (late := aborts _).
  assert (D : outcome (afterwards
                         (DefaultBrowserRequestService.request peer
                            (with_authorization s options) s') late)
              = Some (Rejected e) ->
              ready peer = Some (Rejected e)
              \/ (exists u, ready peer = Some (Resolved u))
                 /\ backend_request peer (with_authorization s options)
                    = Some (Rejected e)).
  { unfold afterwards, DefaultBrowserRequestService.request.
    destruct (ready peer) as [[u | e0] |]; cbn [outcome]; try discriminate.
    - destruct (backend_request peer (with_authorization s options))
        as [[c | e'] |]; simpl; try discriminate.
      intros [= ->]. right. split; [now exists u | reflexivity].
    - intros [= ->]. now left. }
  destruct (settled (snd (xhrRequest prim s options))) as [[r | e'] |].
  - destruct (is_405 r) eqn:E405.
    + intros O. split; [left; now exists r | now apply D].
    + discriminate.
  - intros O. split; [right; now exists e' | now apply D].
  - discriminate.
Qed.


End NativeOutcome.

Lemma native_result_returned_witness :
  outcome (XHRBrowserRequestService.request Scenario.failing_peer
             (Sample.quiet [ev_load 200 "" [104; 105]; ev_cancel])
             (Sample.get_x None None) Sample.fresh)
  = Some (Resolved (loaded 200 "" [104; 105])).
Proof.
  refine (proj1 (native_result_returned Scenario.failing_peer
                   (Sample.quiet [ev_load 200 "" [104; 105]; ev_cancel])
                   (Sample.get_x None None) Sample.fresh
                   200 "" [104; 105] [ev_cancel] eq_refl eq_refl _)).
  discriminate.
Defined.

Lemma silent_native_never_settles_witness :
  outcome (XHRBrowserRequestService.request Sample.echo_peer (Sample.quiet [])
             (Sample.get_x None None) Sample.fresh)
  = None.
Proof.
  exact (proj1 (silent_native_never_settles Sample.echo_peer (Sample.quiet [])
                  (Sample.get_x None None) Sample.fresh eq_refl eq_refl)).
Defined.

Lemma rejection_is_from_delegate_witness :
  ready Scenario.unready_peer = Some (Rejected (Error "preferences failed"))
  \/ (exists u, ready Scenario.unready_peer = Some (Resolved u))
     /\ backend_request Scenario.unready_peer
          (XHRBrowserRequestService.with_authorization Sample.fresh
             (Sample.get_x None None))
        = Some (Rejected (Error "preferences failed")).
Proof.
  exact (proj2 (rejection_is_from_delegate Scenario.unready_peer
                  (Sample.quiet [ev_error "Bad Gateway"])
                  (Sample.get_x None None) Sample.fresh
                  (Error "preferences failed") eq_refl)).
Defined.

(** ** What the executor does to the native object *)

Section Executor.

Import XHRBrowserRequestService.

Lemma logs_only_ret (P : XhrCall -> bool) {A : Type} (a : A) :
  logs_only P (eret a).
Proof. intros th log. exists []. simpl. now rewrite app_nil_r. Qed.

Lemma logs_only_call (P : XhrCall -> bool) (c : XhrCall) :
  P c = true -> logs_only P (call c).
Proof.
  intros Pc th log. unfold call. destruct (th c).
  - exists []. simpl. now rewrite app_nil_r.
  - exists [c]. simpl. now rewrite Pc.
Qed.

Lemma logs_only_bind (P : XhrCall -> bool) {A B : Type} (m : Exec A)
  (k : A -> Exec B) :
  logs_only P m -> (forall a, logs_only P (k a)) -> logs_only P (ebind m k).
Proof.
  intros Hm Hk th log. unfold ebind.
  destruct (Hm th log) as (l1 & E1 & P1).
  destruct (m th log) as [[a | e] log1]; simpl in E1; subst log1.
  - destruct (Hk a th (log ++ l1)%list) as (l2 & E2 & P2).
    exists (l1 ++ l2)%list. rewrite E2, app_assoc, forallb_app, P1, P2.
    split; reflexivity.
  - exists l1. split; [reflexivity | exact P1].
Qed.

Lemma fails_within_call (P : XhrCall -> bool) (c : XhrCall) :
  fails_within P (call c).
Proof.
  intros th log e log'. unfold call. destruct (th c); [| discriminate].
  intros [= _ <-]. exists []. now rewrite app_nil_r.
Qed.

Lemma fails_within_bind (P : XhrCall -> bool) {A B : Type} (m : Exec A)
  (k : A -> Exec B) :
  logs_only P m -> (forall a, fails_within P (k a)) ->
  fails_within P (ebind m k).
Proof.
  intros Hm Hk th log e log'. unfold ebind.
  destruct (Hm th log) as (l1 & E1 & P1).
  destruct (m th log) as [[a | e1] log1]; simpl in E1; subst log1.
  - intros E. destruct (Hk a th _ e log' E) as (l2 & -> & P2).
    exists (l1 ++ l2)%list. rewrite app_assoc, forallb_app, P1, P2.
    split; reflexivity.
  - intros [= _ <-]. exists l1. split; [reflexivity | exact P1].
Qed.

Lemma logs_only_for_of (P : XhrCall -> bool) (body : string -> Exec unit)
  (ks : list string) :
  (forall k, logs_only P (body k)) -> logs_only P (for_of ks body).
Proof.
  intros Hb. induction ks as [| k r IH]; simpl.
  - apply logs_only_ret.
  - apply logs_only_bind; [apply Hb | intros _; exact IH].
Qed.

Lemma logs_only_setRequestHeaders (P : XhrCall -> bool)
  (options : RequestOptions.t) :
  (forall k v, unsafe_header k = false -> P (xhr_setRequestHeader k v) = true) ->
  logs_only P (setRequestHeaders options).
Proof.
  intros HP. unfold setRequestHeaders.
  destruct (RequestOptions.headers options) as [h |];
    [| apply logs_only_ret].
  apply logs_only_for_of. intros k. destruct (unsafe_header k) eqn:U.
  - apply logs_only_ret.
  - apply logs_only_call. now apply HP.
Qed.

Lemma logs_only_timeout (P : XhrCall -> bool) (options : RequestOptions.t) :
  (forall ms, P (xhr_timeout ms) = true) ->
  logs_only P
    (if truthy_number (RequestOptions.timeout options) then
       match RequestOptions.timeout options with
       | Some ms => call (xhr_timeout ms)
       | None => eret tt
       end
     else eret tt).
Proof.
  intros HP. destruct (truthy_number (RequestOptions.timeout options));
    [| apply logs_only_ret].
  destruct (RequestOptions.timeout options);
    [now apply logs_only_call | apply logs_only_ret].
Qed.

Lemma executor_safe (options : RequestOptions.t) :
  logs_only safe_call (executor options).
Proof.
  unfold executor.
  repeat (apply logs_only_bind; [| intros _]);
    try (apply logs_only_call; reflexivity).
  - apply logs_only_setRequestHeaders. intros k v U. simpl. now rewrite U.
  - apply logs_only_timeout. reflexivity.
Qed.

Lemma executor_fails_before_send (options : RequestOptions.t) :
  fails_within before_send (executor options).
Proof.
  unfold executor.
  apply fails_within_bind; [now apply logs_only_call | intros _].
  apply fails_within_bind;
    [apply logs_only_setRequestHeaders; reflexivity | intros _].
  apply fails_within_bind; [now apply logs_only_call | intros _].
  apply fails_within_bind; [apply logs_only_timeout; reflexivity | intros _].
  apply fails_within_call.
Qed.

Lemma calls_xhrRequest (prim : Native) (s : Service) (options : RequestOptions.t) :
  let options' := with_authorization s options in
  exists later,
    calls (snd (xhrRequest prim s options))
    = (snd (executor options' (throws prim) []) ++ later)%list
    /\ (forall c, In c later -> c = xhr_abort)
    /\ (snd (takeoff prim options') = false -> later = []).
Proof.
  intros options'. rewrite xhrRequest_flight. fold options'. unfold takeoff.
  destruct (executor options' (throws prim) []) as [[u | e] log]; simpl.
  - exists (aborts (events prim)). rewrite calls_run_events. simpl.
    split; [reflexivity |]. split; [apply In_aborts | discriminate].
  - exists []. rewrite app_nil_r. split; [reflexivity |].
    split; [intros c [] | reflexivity].
Qed.

(** X6. Whatever the native primitive does and whatever the options
    hold, the native attempt never sets a header named [User-Agent],
    [Accept-Encoding] or [Content-Length]. *)
Theorem denied_header_never_set (prim : Native) (s : Service)
  (options : RequestOptions.t) (k v : string) :
  In (xhr_setRequestHeader k v) (calls (snd (xhrRequest prim s options))) ->
  ~ denied k.
Proof.
  intros HIn. apply unsafe_header_allowed.
  destruct (calls_xhrRequest prim s options) as (later & E & Hab & _).
  rewrite E in HIn. apply in_app_or in HIn. destruct HIn as [HIn | HIn].
  - destruct (executor_safe (with_authorization s options) (throws prim) [])
      as (l & El & Pl).
    rewrite El in HIn. simpl in HIn.
    rewrite forallb_forall in Pl. specialize (Pl _ HIn). simpl in Pl.
    now apply negb_true_iff.
  - apply Hab in HIn. discriminate.
Qed.

(** X7. When a call of the executor throws, the promise is rejected with
    what was thrown, nothing is sent and nothing is aborted, whatever
    events are pending, and [request] falls back to the peer. *)
Theorem thrown_call_sends_nothing (peer : Peer) (prim : Native)
  (options : RequestOptions.t) (s : Service) :
  let options' := with_authorization s options in
  let f := snd (xhrRequest prim s options) in
  snd (takeoff prim options') = false ->
  (exists e, executor options' (throws prim) [] = (inr e, calls f)
             /\ settled f = Some (Rejected e))
  /\ (forall c, In c (calls f) -> before_send c = true)
  /\ request peer prim options s
     = DefaultBrowserRequestService.request peer options'
         (emit s (map native (calls f))).
Proof.
  intros options' f Thrown.
  assert (F : f = fst (takeoff prim options')).
  { subst f. rewrite xhrRequest_flight. fold options'. now rewrite Thrown. }
  assert (X : exists e, executor options' (throws prim) [] = (inr e, calls f)
                        /\ settled f = Some (Rejected e)).
  { rewrite F. revert Thrown. unfold takeoff.
    destruct (executor options' (throws prim) []) as [[u | e] log]; simpl;
      [discriminate |].
    intros _. exists e. split; reflexivity. }
  split; [exact X |]. destruct X as (e & Ex & St). split.
  - intros c HIn.
    destruct (executor_fails_before_send options' (throws prim) [] e _ Ex)
      as (l & El & Pl).
    simpl in El. rewrite El in HIn. rewrite forallb_forall in Pl. now apply Pl.
  - rewrite (request_delegates peer prim options s).
    + rewrite (settlement_unsent prim s options Thrown). cbn [fst snd].
      apply afterwards_nil.
    + right. now exists e.
Qed.

End Executor.

Lemma thrown_call_sends_nothing_witness :
  XHRBrowserRequestService.request Sample.echo_peer
    (Scenario.closed [ev_cancel]) (Sample.get_x None None) Sample.fresh
  = DefaultBrowserRequestService.request Sample.echo_peer
      (Sample.get_x None None) Sample.fresh.
Proof.
  exact (proj2 (proj2 (thrown_call_sends_nothing Sample.echo_peer
                         (Scenario.closed [ev_cancel]) (Sample.get_x None None)
                         Sample.fresh eq_refl))).
Defined.

Lemma denied_header_never_set_witness : ~ denied "X-Custom".
Proof.
  apply (denied_header_never_set (Sample.strict []) Sample.fresh
           (Sample.get_x (Some [("User-Agent", "X"); ("X-Custom", "Y")]) None)
           "X-Custom" "Y").
  simpl. right. left. reflexivity.
Defined.

(** ** Headers and time-out of the native call *)

Section NativeCall.

Import XHRBrowserRequestService.

Lemma get_put_same (h : Headers) (k v : string) : get (put h k v) k = Some v.
Proof.
  induction h as [| [k1 v1] r IH]; simpl.
  - now rewrite String.eqb_refl.
  - destruct (String.eqb_spec k1 k) as [-> | N]; simpl.
    + now rewrite String.eqb_refl.
    + destruct (String.eqb_spec k1 k); [contradiction | exact IH].
Qed.

Lemma get_put_other (h : Headers) (k v k' : string) :
  k' <> k -> get (put h k v) k' = get h k'.
Proof.
  intros N. induction h as [| [k1 v1] r IH]; simpl.
  - destruct (String.eqb_spec k k'); [congruence | reflexivity].
  - destruct (String.eqb_spec k1 k) as [-> | N1]; simpl.
    + destruct (String.eqb_spec k k'); [congruence | reflexivity].
    + destruct (String.eqb_spec k1 k'); [reflexivity | exact IH].
Qed.

Lemma passed_through_set (h : Headers) (c : XhrCall) :
  In c (passed_through h) -> is_set_header c = true.
Proof.
  unfold passed_through. rewrite in_map_iff. intros ([k v] & <- & _).
  reflexivity.
Qed.

(** The calls of a request whose native primitive accepts them. *)
Lemma calls_sent (prim : Native) (s : Service) (options : RequestOptions.t) :
  accepts_safe_calls (throws prim) ->
  well_formed (headers_or_empty options) ->
  calls (snd (xhrRequest prim s options))
  = (calls_to_send (with_authorization s options) ++ aborts (events prim))%list.
Proof.
  intros A W. rewrite (xhrRequest_sent prim s options A W). cbn [snd].
  now rewrite calls_run_events.
Qed.

(** X8. When an authorization is in force, [Proxy-Authorization] is set
    once on the native object and with that value: a header of that name
    which the caller supplied is replaced, not sent beside it. *)
Theorem caller_proxy_authorization_replaced (prim : Native) (s : Service)
  (options : RequestOptions.t) (a v : string) :
  accepts_safe_calls (throws prim) ->
  well_formed (headers_or_empty options) ->
  effective_authorization s options = Some a ->
  a <> "" ->
  In (xhr_setRequestHeader "Proxy-Authorization" v)
     (calls (snd (xhrRequest prim s options))) ->
  v = a.
Proof.
  intros A W E N HIn. rewrite (calls_sent prim s options A W) in HIn.
  destruct (with_authorization_cases s options) as [_ Hyes].
  pose proof (with_authorization_well_formed s options W) as W'.
  rewrite (Hyes a E N) in HIn, W'. unfold headers_or_empty in W'.
  simpl in W'. apply in_app_or in HIn. destruct HIn as [HIn | HIn];
    [| apply In_aborts in HIn; discriminate].
  unfold calls_to_send in HIn. simpl RequestOptions.headers in HIn.
  apply in_app_or in HIn. destruct HIn as [[HIn | []] | HIn];
    [discriminate |].
  apply in_app_or in HIn. destruct HIn as [HIn | HIn].
  - apply In_passed_through in HIn. destruct HIn as [HIn _].
    pose proof (get_In _ _ _ W' HIn) as G. rewrite get_put_same in G.
    congruence.
  - apply in_app_or in HIn. destruct HIn as [[HIn | []] | HIn];
      [discriminate |].
    apply in_app_or in HIn. destruct HIn as [HIn | [HIn | []]];
      [| discriminate].
    destruct (RequestOptions.timeout _) as [ms |]; [| destruct HIn].
    destruct (ms =? 0); [destruct HIn |].
    destruct HIn as [HIn | []]; discriminate.
Qed.

(** X9. [xhr.timeout] is assigned exactly when [options.timeout] is a
    number other than 0, and then that number. *)
Theorem timeout_set_when_nonzero (prim : Native) (s : Service)
  (options : RequestOptions.t) (ms : Z) :
  accepts_safe_calls (throws prim) ->
  well_formed (headers_or_empty options) ->
  (In (xhr_timeout ms) (calls (snd (xhrRequest prim s options)))
   <-> RequestOptions.timeout options = Some ms /\ ms <> 0).
Proof.
  intros A W. rewrite (calls_sent prim s options A W).
  destruct (with_authorization_frame s options)
    as (_ & _ & _ & _ & Ht & _).
  unfold calls_to_send. rewrite Ht. split.
  - intros HIn. apply in_app_or in HIn. destruct HIn as [HIn | HIn];
      [| apply In_aborts in HIn; discriminate].
    apply in_app_or in HIn. destruct HIn as [[HIn | []] | HIn];
      [discriminate |].
    apply in_app_or in HIn. destruct HIn as [HIn | HIn].
    { destruct (RequestOptions.headers _);
        [apply passed_through_set in HIn; discriminate | destruct HIn]. }
    apply in_app_or in HIn. destruct HIn as [[HIn | []] | HIn];
      [discriminate |].
    apply in_app_or in HIn. destruct HIn as [HIn | [HIn | []]];
      [| discriminate].
    destruct (RequestOptions.timeout options) as [ms0 |]; [| destruct HIn].
    destruct (Z.eqb_spec ms0 0) as [-> | N0]; [destruct HIn |].
    destruct HIn as [[= <-] | []]. split; [reflexivity | exact N0].
  - intros [-> N0]. apply in_or_app. left. apply in_or_app. right.
    apply in_or_app. right. apply in_or_app. right. apply in_or_app. left.
    destruct (Z.eqb_spec ms 0); [contradiction | now left].
Qed.

End NativeCall.

Lemma caller_proxy_authorization_replaced_witness : "Basic new" = "Basic new".
Proof.
  assert (A : accepts_safe_calls (throws (Sample.quiet []))).
  { intros c _. reflexivity. }
  assert (W : well_formed
                (headers_or_empty
                   (Sample.get_x (Some [("Proxy-Authorization", "Basic old")])
                      None))).
  { unfold well_formed. simpl. repeat constructor. simpl. tauto. }
  refine (caller_proxy_authorization_replaced (Sample.quiet [])
            {| authorization := Some "Basic new"; effects := [] |}
            (Sample.get_x (Some [("Proxy-Authorization", "Basic old")]) None)
            "Basic new" "Basic new" A W eq_refl _ _).
  - discriminate.
  - simpl. right. left. reflexivity.
Defined.

Lemma timeout_set_when_nonzero_witness :
  In (xhr_timeout 5000)
     (XHRBrowserRequestService.calls
        (snd (XHRBrowserRequestService.xhrRequest (Sample.quiet []) Sample.fresh
                (RequestOptions.mk None "http://x/" None None None (Some 5000)
                   None None None)))).
Proof.
  assert (A : accepts_safe_calls (throws (Sample.quiet []))).
  { intros c _. reflexivity. }
  assert (W : well_formed
                (headers_or_empty
                   (RequestOptions.mk None "http://x/" None None None
                      (Some 5000) None None None))).
  { unfold well_formed. simpl. constructor. }
  refine (proj2 (timeout_set_when_nonzero (Sample.quiet []) Sample.fresh
                   (RequestOptions.mk None "http://x/" None None None
                      (Some 5000) None None None) 5000 A W) _).
  split; [reflexivity | discriminate].
Defined.

(** ** Configuration and preference changes, composed *)

Section Reconfiguration.

Import DefaultBrowserRequestService.

(** X10. Two configurations in a row: the last one that has the key
    [proxyAuthorization] decides the cached value, and the peer receives
    both, in order and as they were given. *)
Theorem configure_last_write_wins (c1 c2 : RequestConfiguration.t) (s : Service) :
  let s2 := XHRBrowserRequestService.configure c2
              (XHRBrowserRequestService.configure c1 s) in
  authorization s2
  = (if has (RequestConfiguration.proxyAuthorization c2)
     then read (RequestConfiguration.proxyAuthorization c2)
     else if has (RequestConfiguration.proxyAuthorization c1)
          then read (RequestConfiguration.proxyAuthorization c1)
          else authorization s)
  /\ effects s2 = (effects s ++ [peer_configure c1; peer_configure c2])%list.
Proof.
  unfold XHRBrowserRequestService.configure,
    XHRBrowserRequestService.super_configure, configure, emit.
  destruct (RequestConfiguration.proxyAuthorization c2),
    (RequestConfiguration.proxyAuthorization c1); simpl;
    rewrite <- app_assoc; split; reflexivity.
Qed.

(** The configuration that the listener builds has the keys that
    changed, each with the new value that the listener read. *)
Lemma changed_config_shape (e : PreferenceChanges)
  (config : RequestConfiguration.t) :
  changed_config e = done config ->
  (has (RequestConfiguration.proxyUrl config) = has_key e "http.proxy"
   /\ forall c, lookup e "http.proxy" = Some c ->
                as_string (newValue c)
                = done (read (RequestConfiguration.proxyUrl config)))
  /\ (has (RequestConfiguration.proxyAuthorization config)
      = has_key e "http.proxyAuthorization"
      /\ (has_key e "http.proxyAuthorization" = true ->
          exists c, lookup e "proxyAuthorization" = Some c
                    /\ as_string (newValue c)
                       = done (read (RequestConfiguration.proxyAuthorization
                                       config))))
  /\ (has (RequestConfiguration.strictSSL config)
      = has_key e "http.proxyStrictSSL"
      /\ forall c, lookup e "http.proxyStrictSSL" = Some c ->
                   as_boolean (newValue c)
                   = done (read (RequestConfiguration.strictSSL config))).
Proof.
  unfold changed_config, has_key, newValue_at.
  destruct (lookup e "http.proxy") as [c1 |]; simpl;
    [destruct (as_string (newValue c1)) as [v1 | |] eqn:E1;
       simpl; try discriminate |];
    (destruct (lookup e "http.proxyAuthorization") as [c2 |]; simpl;
     [destruct (lookup e "proxyAuthorization") as [c2' |]; simpl;
        try discriminate;
      destruct (as_string (newValue c2')) as [v2 | |] eqn:E2;
        simpl; try discriminate |]);
    (destruct (lookup e "http.proxyStrictSSL") as [c3 |]; simpl;
     [destruct (as_boolean (newValue c3)) as [v3 | |] eqn:E3;
        simpl; try discriminate |]);
    intros [= <-]; simpl;
    repeat match goal with
           | |- _ /\ _ => split
           | |- forall _, _ => intro
           | H : Some _ = Some _ |- _ => injection H as <-
           | |- exists c, Some ?x = Some c /\ _ => exists x
           end;
    try reflexivity; try assumption; try discriminate.
Qed.

(** X11. When the listener of [init] reaches [configure], the
    configuration it passes has exactly the keys of the preferences that
    changed, [proxyUrl] and [strictSSL] hold the new values of
    [http.proxy] and [http.proxyStrictSSL], and [proxyAuthorization]
    holds the new value found under the key [proxyAuthorization]. *)
Theorem init_passes_changed_keys
  (this_configure : RequestConfiguration.t -> Service -> Service)
  (e : PreferenceChanges) (s s' : Service) :
  init this_configure e s = done s' ->
  exists config,
    s' = this_configure config s
    /\ has (RequestConfiguration.proxyUrl config) = has_key e "http.proxy"
    /\ has (RequestConfiguration.proxyAuthorization config)
       = has_key e "http.proxyAuthorization"
    /\ has (RequestConfiguration.strictSSL config)
       = has_key e "http.proxyStrictSSL"
    /\ (forall c, lookup e "http.proxy" = Some c ->
          as_string (newValue c)
          = done (read (RequestConfiguration.proxyUrl config)))
    /\ (forall c, lookup e "http.proxyStrictSSL" = Some c ->
          as_boolean (newValue c)
          = done (read (RequestConfiguration.strictSSL config)))
    /\ (has_key e "http.proxyAuthorization" = true ->
        exists c, lookup e "proxyAuthorization" = Some c
                  /\ as_string (newValue c)
                     = done (read (RequestConfiguration.proxyAuthorization
                                     config))).
Proof.
  unfold init. destruct (changed_config e) as [config | |] eqn:E; simpl;
    try discriminate.
  intros [= <-]. exists config.
  destruct (changed_config_shape e config E)
    as ((H1 & V1) & (H2 & V2) & (H3 & V3)).
  split; [reflexivity |]. split; [exact H1 |]. split; [exact H2 |].
  split; [exact H3 |]. split; [exact V1 |]. split; [exact V3 | exact V2].
Qed.

(** X12. Whatever else the event holds, a change of
    [http.proxyAuthorization] without a key [proxyAuthorization] in the
    same event never reaches [configure]. *)
Theorem init_needs_both_keys
  (this_configure : RequestConfiguration.t -> Service -> Service)
  (e : PreferenceChanges) (s s' : Service) :
  has_key e "http.proxyAuthorization" = true ->
  has_key e "proxyAuthorization" = false ->
  init this_configure e s <> done s'.
Proof.
  intros K1 K2. unfold init.
  destruct (changed_config e) as [config | |] eqn:E; simpl;
    try discriminate.
  destruct (changed_config_shape e config E) as (_ & (_ & V2) & _).
  destruct (V2 K1) as (c & L & _). unfold has_key in K2. rewrite L in K2.
  discriminate.
Qed.

(** X13. A change of preferences that touches none of the three keys
    still configures: the XHR service hands the empty configuration to
    the peer and keeps its cached authorization. *)
Theorem init_unrelated_change (e : PreferenceChanges) (s : Service) :
  has_key e "http.proxy" = false ->
  has_key e "http.proxyAuthorization" = false ->
  has_key e "http.proxyStrictSSL" = false ->
  init XHRBrowserRequestService.configure e s
  = done {| authorization := authorization s;
            effects := (effects s
                        ++ [peer_configure RequestConfiguration.empty])%list |}.
Proof.
  intros K1 K2 K3. unfold init, changed_config. rewrite K1, K2, K3.
  reflexivity.
Qed.

(** X14. Through the listener of [init], the cached authorization of the
    XHR service changes only on an event that holds both
    [http.proxyAuthorization] and [proxyAuthorization], and then to the
    new value of the latter. *)
Theorem init_changes_authorization (e : PreferenceChanges) (s s' : Service) :
  init XHRBrowserRequestService.configure e s = done s' ->
  (has_key e "http.proxyAuthorization" = false ->
   authorization s' = authorization s)
  /\ (has_key e "http.proxyAuthorization" = true ->
      exists c, lookup e "proxyAuthorization" = Some c
                /\ as_string (newValue c) = done (authorization s')).
Proof.
  unfold init. destruct (changed_config e) as [config | |] eqn:E; simpl;
    try discriminate.
  intros [= <-].
  destruct (changed_config_shape e config E) as (_ & (H2 & V2) & _).
  unfold XHRBrowserRequestService.configure,
    XHRBrowserRequestService.super_configure, configure, emit.
  split; intros K; rewrite K in H2; rewrite H2; simpl.
  - reflexivity.
  - exact (V2 K).
Qed.

(** X15. [transformBackendResponse] keeps status and headers, and makes
    of the transferred numbers as many bytes, each in 0..255; numbers
    that are bytes already are kept as they are. *)
Theorem transformBackendResponse_bytes (context : TransferredContext) :
  let r := transformBackendResponse context in
  RequestContext.res r = t_res context
  /\ List.length (BinaryBuffer.buffer (RequestContext.buffer r))
     = List.length (t_data context)
  /\ Forall (fun b => 0 <= b < 256)
            (BinaryBuffer.buffer (RequestContext.buffer r))
  /\ (Forall (fun b => 0 <= b < 256) (t_data context) ->
      BinaryBuffer.buffer (RequestContext.buffer r) = t_data context).
Proof.
  unfold transformBackendResponse, BinaryBuffer.Uint8Array_from. simpl.
  split; [reflexivity |]. split; [apply length_map |]. split.
  - apply Forall_forall. intros b HIn. apply in_map_iff in HIn.
    destruct HIn as (n & <- & _). apply Z.mod_pos_bound. lia.
  - intros F. induction F as [| n l Hn _ IH]; simpl; [reflexivity |].
    rewrite IH. now rewrite Z.mod_small.
Qed.

End Reconfiguration.

Lemma init_passes_changed_keys_witness :
  exists config,
    has (RequestConfiguration.proxyUrl config) = true
    /\ has (RequestConfiguration.proxyAuthorization config) = false
    /\ has (RequestConfiguration.strictSSL config) = true.
Proof.
  destruct (init_passes_changed_keys DefaultBrowserRequestService.configure
              [("http.proxy", Sample.change (a_string "http://proxy:3128"));
               ("http.proxyStrictSSL", Sample.change (a_boolean false))]
              Sample.fresh _ eq_refl)
    as (config & _ & H1 & H2 & H3 & _).
  exists config. split; [exact H1 |]. split; [exact H2 | exact H3].
Defined.

Lemma init_needs_both_keys_witness :
  DefaultBrowserRequestService.init DefaultBrowserRequestService.configure
    [("http.proxy", Sample.change (a_string "http://proxy:3128"));
     ("http.proxyAuthorization", Sample.change (a_string "Basic abc"))]
    Sample.fresh
  <> done Sample.fresh.
Proof.
  exact (init_needs_both_keys DefaultBrowserRequestService.configure
           [("http.proxy", Sample.change (a_string "http://proxy:3128"));
            ("http.proxyAuthorization", Sample.change (a_string "Basic abc"))]
           Sample.fresh Sample.fresh eq_refl eq_refl).
Defined.

Lemma init_unrelated_change_witness :
  DefaultBrowserRequestService.init XHRBrowserRequestService.configure
    [("editor.fontSize", Sample.change (a_string "12"))]
    {| authorization := Some "Basic abc"; effects := [] |}
  = done {| authorization := Some "Basic abc";
            effects := [peer_configure RequestConfiguration.empty] |}.
Proof.
  exact (init_unrelated_change
           [("editor.fontSize", Sample.change (a_string "12"))]
           {| authorization := Some "Basic abc"; effects := [] |}
           eq_refl eq_refl eq_refl).
Defined.

Lemma init_changes_authorization_witness :
  exists c,
    DefaultBrowserRequestService.lookup
      [("http.proxyAuthorization", Sample.change (a_string "ignored"));
       ("proxyAuthorization", Sample.change (a_string "Basic abc"))]
      "proxyAuthorization" = Some c
    /\ DefaultBrowserRequestService.as_string (newValue c)
       = done (Some "Basic abc").
Proof.
  exact (proj2 (init_changes_authorization
                  [("http.proxyAuthorization", Sample.change (a_string "ignored"));
                   ("proxyAuthorization", Sample.change (a_string "Basic abc"))]
                  Sample.fresh
                  {| authorization := Some "Basic abc";
                     effects :=
                       [peer_configure
                          (RequestConfiguration.mk Absent
                             (Present (Some "Basic abc")) Absent)] |}
                  eq_refl) eq_refl).
Defined.

Lemma transformBackendResponse_bytes_witness :
  BinaryBuffer.buffer
    (RequestContext.buffer
       (DefaultBrowserRequestService.transformBackendResponse
          {| t_res := RequestContext.mk_res [] (Some 200);
             t_data := [0; 104; 255] |}))
  = [0; 104; 255].
Proof.
  apply (proj2 (proj2 (proj2 (transformBackendResponse_bytes
           {| t_res := RequestContext.mk_res [] (Some 200);
              t_data := [0; 104; 255] |})))).
  repeat constructor; lia.
Defined.

(** ** Trimming and lower-casing *)

Section Text.

Lemma lower_char_idempotent (c : ascii) : lower_char (lower_char c) = lower_char c.
Proof. destruct c as [[] [] [] [] [] [] [] []]; reflexivity. Qed.

Lemma is_white_lower_char (c : ascii) : is_white (lower_char c) = is_white c.
Proof. destruct c as [[] [] [] [] [] [] [] []]; reflexivity. Qed.

Lemma toLowerCase_idempotent (s : string) :
  toLowerCase (toLowerCase s) = toLowerCase s.
Proof.
  induction s as [| c r IH]; simpl; [reflexivity |].
  now rewrite lower_char_idempotent, IH.
Qed.

Lemma trimStart_toLowerCase (s : string) :
  trimStart (toLowerCase s) = toLowerCase (trimStart s).
Proof.
  induction s as [| c r IH]; simpl; [reflexivity |].
  rewrite is_white_lower_char. destruct (is_white c); [exact IH | reflexivity].
Qed.

Lemma trimEnd_toLowerCase (s : string) :
  trimEnd (toLowerCase s) = toLowerCase (trimEnd s).
Proof.
  induction s as [| c r IH]; simpl; [reflexivity |].
  rewrite IH, is_white_lower_char.
  destruct (trimEnd r); simpl; [destruct (is_white c) |]; reflexivity.
Qed.

Lemma trim_toLowerCase (s : string) : trim (toLowerCase s) = toLowerCase (trim s).
Proof.
  unfold trim. now rewrite trimStart_toLowerCase, trimEnd_toLowerCase.
Qed.

Lemma trimEnd_idempotent (s : string) : trimEnd (trimEnd s) = trimEnd s.
Proof.
  induction s as [| c r IH]; simpl; [reflexivity |].
  destruct (trimEnd r) as [| d t] eqn:E.
  - destruct (is_white c) eqn:W; simpl; [reflexivity | now rewrite W].
  - change (trimEnd (String c (String d t))) with
      (match trimEnd (String d t) with
       | EmptyString => if is_white c then EmptyString else String c EmptyString
       | r' => String c r'
       end).
    now rewrite IH.
Qed.

(** A string that does not begin with white space. *)
Lemma trimStart_head (s : string) :
  match trimStart s with
  | EmptyString => True
  | String c _ => is_white c = false
  end.
Proof.
  induction s as [| c r IH]; simpl; [exact I |].
  destruct (is_white c) eqn:W; [exact IH | exact W].
Qed.

Lemma trimStart_trimEnd (s : string) :
  match s with
  | EmptyString => True
  | String c _ => is_white c = false
  end ->
  trimStart (trimEnd s) = trimEnd s.
Proof.
  destruct s as [| c r]; [reflexivity |]. intros W. simpl.
  destruct (trimEnd r); rewrite ?W; simpl; rewrite ?W; reflexivity.
Qed.

Lemma trim_idempotent (s : string) : trim (trim s) = trim s.
Proof.
  unfold trim. rewrite (trimStart_trimEnd (trimStart s) (trimStart_head s)).
  apply trimEnd_idempotent.
Qed.

End Text.

(** ** The parsed response headers *)

Section ParsedHeaders.

Import XHRBrowserRequestService.

Lemma In_put_inv (h : Headers) (k v k' v' : string) :
  In (k', v') (put h k v) -> In (k', v') h \/ (k', v') = (k, v).
Proof.
  induction h as [| [k1 v1] r IH]; simpl.
  - intros [E | []]. now right.
  - destruct (String.eqb_spec k1 k) as [-> | N]; simpl.
    + intros [E | HIn]; [now right | left; now right].
    + intros [E | HIn]; [left; now left |].
      destruct (IH HIn) as [H | H]; [left; now right | now right].
Qed.

Lemma add_line_tidy (h : Headers) (line : string) :
  well_formed h -> (forall k v, In (k, v) h -> tidy k v) ->
  well_formed (add_line h line)
  /\ forall k v, In (k, v) (add_line h line) -> tidy k v.
Proof.
  intros W T. unfold add_line. destruct (nonempty line); [| now split].
  unfold assign.
  destruct (String.eqb_spec
              (toLowerCase (trim (substr line 0 (indexOf line colon))))
              "__proto__") as [E | N]; [now split |].
  split; [now apply put_well_formed |].
  intros k v HIn. apply In_put_inv in HIn. destruct HIn as [HIn | [= -> ->]];
    [now apply T |].
  repeat split.
  - apply toLowerCase_idempotent.
  - rewrite trim_toLowerCase. now rewrite trim_idempotent.
  - apply trim_idempotent.
  - exact N.
Qed.

Lemma fold_add_line_tidy (l : list string) :
  forall h,
    well_formed h -> (forall k v, In (k, v) h -> tidy k v) ->
    well_formed (fold_left add_line l h)
    /\ forall k v, In (k, v) (fold_left add_line l h) -> tidy k v.
Proof.
  induction l as [| line l IH]; intros h W T; simpl; [now split |].
  destruct (add_line_tidy h line W T) as [W' T']. now apply IH.
Qed.

Lemma get_Some_In (h : Headers) (k v : string) :
  get h k = Some v -> In (k, v) h.
Proof.
  induction h as [| [k1 v1] r IH]; simpl; [discriminate |].
  destruct (String.eqb_spec k1 k) as [-> | N].
  - intros [= ->]. now left.
  - intros G. right. now apply IH.
Qed.

(** X16. Whatever the header block, the parsed headers have every name
    once, every name is lower-case and trimmed, every value is trimmed,
    and no name is [__proto__]; so a lookup finds an entry only under a
    lower-case name. *)
Theorem parsed_headers_tidy (raw : string) :
  let parsed := getResponseHeaders raw in
  well_formed parsed
  /\ (forall k v, get parsed k = Some v <-> In (k, v) parsed)
  /\ (forall k v, get parsed k = Some v ->
        toLowerCase k = k /\ trim k = k /\ trim v = v /\ k <> "__proto__").
Proof.
  unfold getResponseHeaders.
  destruct (fold_add_line_tidy (split_lines raw) [])
    as [W T]; [constructor | intros k v [] |].
  split; [exact W |]. split.
  - intros k v. split; [apply get_Some_In | now apply get_In].
  - intros k v G. apply (T k v). now apply get_Some_In.
Qed.

Lemma all_chars_app (P : ascii -> bool) (a b : string) :
  all_chars P (a ++ b) = all_chars P a && all_chars P b.
Proof.
  induction a as [| c r IH]; simpl; [reflexivity |].
  now rewrite IH, andb_assoc.
Qed.

Lemma getResponseHeaders_lines (raw : string) :
  getResponseHeaders raw
  = fold_left
      (fun h line =>
         assign h (fst (Worded.name_value line)) (snd (Worded.name_value line)))
      (Worded.lines raw) [].
Proof.
  unfold getResponseHeaders, Worded.lines, split_lines.
  rewrite fold_add_line.
  now rewrite (split_lines_runs (String.length raw) raw []).
Qed.

Lemma runs_acc_app (a b : string) (c : ascii) :
  Worded.is_eol c = true ->
  forall cur,
    Worded.runs_acc (a ++ String c b) cur
    = (Worded.runs_acc a cur ++ Worded.runs_acc b [])%list.
Proof.
  intros Hc. induction a as [| d r IH]; intros cur; simpl.
  - now rewrite Hc.
  - destruct (Worded.is_eol d).
    + now rewrite IH, app_assoc.
    + apply IH.
Qed.

Lemma lines_app (a b : string) (c : ascii) :
  Worded.is_eol c = true ->
  Worded.lines (a ++ String c b) = (Worded.lines a ++ Worded.lines b)%list.
Proof. intros Hc. unfold Worded.lines. now apply runs_acc_app. Qed.

Lemma runs_acc_plain (s : string) :
  all_chars not_eol s = true ->
  forall cur,
    Worded.runs_acc s cur
    = Worded.flush (rev (list_ascii_of_string s) ++ cur).
Proof.
  induction s as [| c r IH]; simpl; intros A cur; [reflexivity |].
  apply andb_true_iff in A. destruct A as [Ac Ar].
  unfold not_eol in Ac. apply negb_true_iff in Ac. rewrite Ac.
  rewrite (IH Ar). now rewrite <- app_assoc.
Qed.

Lemma lines_plain (s : string) :
  all_chars not_eol s = true -> s <> "" -> Worded.lines s = [s].
Proof.
  intros A N. unfold Worded.lines. rewrite (runs_acc_plain s A).
  rewrite app_nil_r. unfold Worded.flush.
  destruct (rev (list_ascii_of_string s)) as [| d l] eqn:E.
  - destruct s; [now elim N |]. simpl in E.
    now destruct (rev (list_ascii_of_string s)).
  - rewrite <- E, rev_involutive. now rewrite string_of_list_ascii_of_string.
Qed.

Lemma cut_app (name value : string) :
  all_chars not_colon name = true ->
  Worded.cut (name ++ String colon value) = Some (name, value).
Proof.
  induction name as [| c r IH]; simpl; intros A.
  - reflexivity.
  - apply andb_true_iff in A. destruct A as [Ac Ar].
    unfold not_colon in Ac. apply negb_true_iff in Ac. rewrite Ac.
    now rewrite (IH Ar).
Qed.

(** X17. A header line appended to a block is one assignment to what the
    block parses to: the line's value replaces an earlier value of the
    same name, whatever the case of the name, and every other name
    keeps its value. *)
Theorem appended_line_overrides (raw name value : string) :
  all_chars not_eol name = true ->
  all_chars not_colon name = true ->
  all_chars not_eol value = true ->
  let n := toLowerCase (trim name) in
  let parsed := getResponseHeaders (raw ++ String LF (name ++ String colon value)) in
  parsed = assign (getResponseHeaders raw) n (trim value)
  /\ (n <> "__proto__" -> get parsed n = Some (trim value))
  /\ (forall k, k <> n -> get parsed k = get (getResponseHeaders raw) k).
Proof.
  intros An Ac Av n parsed.
  assert (E : parsed = assign (getResponseHeaders raw) n (trim value)).
  { subst parsed n. rewrite !getResponseHeaders_lines.
    rewrite (lines_app raw _ LF eq_refl).
    rewrite (lines_plain (name ++ String colon value)).
    - rewrite fold_left_app. cbn [fold_left]. unfold Worded.name_value.
      now rewrite (cut_app name value Ac).
    - rewrite all_chars_app, An. simpl. exact Av.
    - destruct name; discriminate. }
  split; [exact E |]. rewrite E. unfold assign. split.
  - intros N. destruct (String.eqb_spec n "__proto__"); [contradiction |].
    apply get_put_same.
  - intros k N. destruct (String.eqb n "__proto__"); [reflexivity |].
    now apply get_put_other.
Qed.

(** X18. The style of the line endings does not matter: CR LF, LF and CR
    between two parts of a block give the same headers, and a line
    ending at the end of a block gives nothing more. *)
Theorem line_ending_style (a b : string) :
  getResponseHeaders (a ++ String CR (String LF b))
  = getResponseHeaders (a ++ String LF b)
  /\ getResponseHeaders (a ++ String CR b) = getResponseHeaders (a ++ String LF b)
  /\ getResponseHeaders (a ++ String CR (String LF "")) = getResponseHeaders a.
Proof.
  rewrite !getResponseHeaders_lines.
  rewrite !(lines_app a _ CR eq_refl), !(lines_app a _ LF eq_refl).
  change (String LF b) with ("" ++ String LF b).
  change (String LF "") with ("" ++ String LF "").
  rewrite !(lines_app "" _ LF eq_refl).
  change (Worded.lines "") with (@nil string). simpl.
  now rewrite app_nil_r.
Qed.

(** X19. The deny list is matched with the case of its three names: a
    header whose name is written in lower case, [user-agent] too, is
    always set on the native object. *)
Theorem lower_case_name_is_set (options : RequestOptions.t) (h : Headers)
  (th : XhrCall -> option exn) (log : list XhrCall) (k v : string) :
  RequestOptions.headers options = Some h ->
  well_formed h ->
  accepts_safe_calls th ->
  In (k, v) h ->
  toLowerCase k = k ->
  setRequestHeaders options th log = (inl tt, (log ++ passed_through h)%list)
  /\ In (xhr_setRequestHeader k v) (passed_through h).
Proof.
  intros E W A HIn L. split.
  - rewrite (setRequestHeaders_log options th log A); rewrite E; auto.
  - apply In_passed_through. split; [exact HIn |].
    apply unsafe_header_allowed. intros [-> | [-> | ->]]; discriminate L.
Qed.

End ParsedHeaders.

Lemma parsed_headers_tidy_witness : toLowerCase "x-foo" = "x-foo".
Proof.
  exact (proj1 (proj2 (proj2 (parsed_headers_tidy "X-Foo: Bar"))
                  "x-foo" "Bar" eq_refl)).
Defined.

Lemma appended_line_overrides_witness :
  get (XHRBrowserRequestService.getResponseHeaders
         ("X-Foo: a" ++ String LF ("x-FOO " ++ String colon " b ")))
      "x-foo"
  = Some "b".
Proof.
  refine (proj1 (proj2 (appended_line_overrides "X-Foo: a" "x-FOO " " b "
                          eq_refl eq_refl eq_refl)) _).
  discriminate.
Defined.

Lemma lower_case_name_is_set_witness :
  In (xhr_setRequestHeader "user-agent" "X")
     (passed_through [("user-agent", "X")]).
Proof.
  assert (W : well_formed [("user-agent", "X")]).
  { unfold well_formed. simpl. repeat constructor. simpl. tauto. }
  assert (A : accepts_safe_calls (throws (Sample.strict []))).
  { intros c Hc. destruct c; simpl; try reflexivity.
    rewrite (Hc name value eq_refl). reflexivity. }
  exact (proj2 (lower_case_name_is_set
                  (Sample.get_x (Some [("user-agent", "X")]) None)
                  [("user-agent", "X")] (throws (Sample.strict [])) []
                  "user-agent" "X" eq_refl W A (or_introl eq_refl) eq_refl)).
Defined.

(** ** The options object over several requests *)

Section ReusedOptions.

Import XHRBrowserRequestService.

Lemma options_after_request (peer : Peer) (prim : Native)
  (options : RequestOptions.t) (s : Service) :
  options_after (request peer prim options s) = with_authorization s options.
Proof.
  rewrite request_unfold. cbn zeta.
  set (s' := emit s _). set (late := aborts _).
  destruct (delegate_effects peer (with_authorization s options) s')
    as (_ & DO & _).
  destruct (settled (snd (xhrRequest prim s options))) as [[r | e] |];
    [destruct (is_405 r) | |]; unfold afterwards; simpl; auto.
Qed.

(** X20. The fallback waits for the preferences: while they are not
    ready, a request whose native attempt failed or answered 405 does not
    settle and the peer is not asked. *)
Theorem fallback_waits_for_ready (peer : Peer) (prim : Native)
  (options : RequestOptions.t) (s : Service) :
  let f := snd (xhrRequest prim s options) in
  let run := request peer prim options s in
  ((exists r, settled f = Some (Resolved r)
              /\ RequestContext.statusCode (RequestContext.res r) = Some 405)
   \/ (exists e, settled f = Some (Rejected e))) ->
  ready peer = None ->
  outcome run = None
  /\ effects (service_after run) = (effects s ++ map native (calls f))%list.
Proof.
  intros f run Hend NotReady. subst run.
  rewrite (request_delegates peer prim options s Hend).
  unfold afterwards, DefaultBrowserRequestService.request. rewrite NotReady.
  cbn [outcome service_after emit effects]. split; [reflexivity |].
  subst f. now rewrite settlement_calls, map_app, app_assoc.
Qed.

(** X21. The authorization header stays in the caller's options object.
    Handing the object of one request to a later one, made when no
    authorization is in force any more, sets the earlier authorization
    on the native object again. *)
Theorem reused_options_keep_authorization (peer : Peer) (prim1 prim2 : Native)
  (options : RequestOptions.t) (s1 s2 : Service) (a : string) :
  accepts_safe_calls (throws prim2) ->
  well_formed (headers_or_empty options) ->
  effective_authorization s1 options = Some a ->
  a <> "" ->
  truthy_string (effective_authorization s2 options) = false ->
  let again := options_after (request peer prim1 options s1) in
  again = RequestOptions.set_headers options
            (put (headers_or_empty options) "Proxy-Authorization" a)
  /\ options_after (request peer prim2 again s2) = again
  /\ In (xhr_setRequestHeader "Proxy-Authorization" a)
        (calls (snd (xhrRequest prim2 s2 again))).
Proof.
  intros A W E N T again. subst again. rewrite options_after_request.
  destruct (with_authorization_cases s1 options) as [_ Hyes].
  rewrite (Hyes a E N).
  set (again := RequestOptions.set_headers options _).
  assert (T' : truthy_string (effective_authorization s2 again) = false)
    by exact T.
  destruct (with_authorization_cases s2 again) as [Hno _].
  assert (W' : well_formed (headers_or_empty again)).
  { unfold again, headers_or_empty at 1. simpl. now apply put_well_formed. }
  split; [reflexivity |]. split.
  - rewrite options_after_request. now apply Hno.
  - rewrite (calls_sent prim2 s2 again A W'), (Hno T').
    apply in_or_app. left. apply passed_through_sent.
    apply In_passed_through. split; [| reflexivity].
    unfold again, headers_or_empty at 1. simpl. apply In_put_same.
Qed.

End ReusedOptions.

Lemma fallback_waits_for_ready_witness :
  outcome
    (XHRBrowserRequestService.request
       {| ready := None;
          backend_request := backend_request Sample.echo_peer;
          backend_resolveProxy := backend_resolveProxy Sample.echo_peer |}
       (Sample.quiet [ev_timeout]) (Sample.get_x None None) Sample.fresh)
  = None.
Proof.
  refine (proj1 (fallback_waits_for_ready
                   {| ready := None;
                      backend_request := backend_request Sample.echo_peer;
                      backend_resolveProxy := backend_resolveProxy Sample.echo_peer |}
                   (Sample.quiet [ev_timeout]) (Sample.get_x None None)
                   Sample.fresh _ eq_refl)).
  right. eexists. reflexivity.
Defined.

Lemma reused_options_keep_authorization_witness :
  In (xhr_setRequestHeader "Proxy-Authorization" "Basic abc")
     (XHRBrowserRequestService.calls
        (snd (XHRBrowserRequestService.xhrRequest (Sample.quiet []) Sample.fresh
                (options_after
                   (XHRBrowserRequestService.request Sample.echo_peer
                      (Sample.quiet [ev_load 200 "" []])
                      (Sample.get_x None None)
                      {| authorization := Some "Basic abc"; effects := [] |}))))).
Proof.
  assert (A : accepts_safe_calls (throws (Sample.quiet []))).
  { intros c _. reflexivity. }
  assert (W : well_formed (headers_or_empty (Sample.get_x None None))).
  { unfold well_formed. simpl. constructor. }
  refine (proj2 (proj2 (reused_options_keep_authorization Sample.echo_peer
                          (Sample.quiet [ev_load 200 "" []]) (Sample.quiet [])
                          (Sample.get_x None None)
                          {| authorization := Some "Basic abc"; effects := [] |}
                          Sample.fresh "Basic abc" A W eq_refl _ eq_refl))).
  discriminate.
Defined.

(** ** The caller's headers on the native call *)

Section CallerHeaders.

Import XHRBrowserRequestService.

(** The headers set by a request that was sent are those passed through
    from the options as [xhrRequest] made them. *)
Lemma set_header_sent (options : RequestOptions.t) (evs : list XhrEvent)
  (k v : string) :
  In (xhr_setRequestHeader k v) (calls_to_send options ++ aborts evs)
  <-> In (xhr_setRequestHeader k v) (passed_through (headers_or_empty options)).
Proof.
  split.
  - intros HIn. apply in_app_or in HIn. destruct HIn as [HIn | HIn];
      [| apply In_aborts in HIn; discriminate].
    unfold calls_to_send in HIn. unfold headers_or_empty.
    apply in_app_or in HIn. destruct HIn as [[HIn | []] | HIn];
      [discriminate |].
    apply in_app_or in HIn. destruct HIn as [HIn | HIn].
    { destruct (RequestOptions.headers options); [exact HIn | destruct HIn]. }
    apply in_app_or in HIn. destruct HIn as [[HIn | []] | HIn];
      [discriminate |].
    apply in_app_or in HIn. destruct HIn as [HIn | [HIn | []]];
      [| discriminate].
    destruct (RequestOptions.timeout options) as [ms |]; [| destruct HIn].
    destruct (ms =? 0); [destruct HIn |].
    destruct HIn as [HIn | []]; discriminate.
  - intros HIn. apply in_or_app. left. now apply passed_through_sent.
Qed.

(** The headers of the options as [xhrRequest] makes them. *)
Lemma headers_with_authorization (s : Service) (options : RequestOptions.t) :
  (truthy_string (effective_authorization s options) = false ->
   headers_or_empty (with_authorization s options) = headers_or_empty options)
  /\ (forall a, effective_authorization s options = Some a -> a <> "" ->
        headers_or_empty (with_authorization s options)
        = put (headers_or_empty options) "Proxy-Authorization" a).
Proof.
  destruct (with_authorization_cases s options) as [Hno Hyes]. split.
  - intros T. now rewrite (Hno T).
  - intros a E N. now rewrite (Hyes a E N).
Qed.

(** Under an authorization in force, [Proxy-Authorization] is set with
    it and with nothing else. *)
Lemma authorization_header_set (prim : Native) (s : Service)
  (options : RequestOptions.t) (a v : string) :
  accepts_safe_calls (throws prim) ->
  well_formed (headers_or_empty options) ->
  effective_authorization s options = Some a ->
  a <> "" ->
  (In (xhr_setRequestHeader "Proxy-Authorization" v)
      (calls (snd (xhrRequest prim s options)))
   <-> v = a).
Proof.
  intros A W E N. rewrite (calls_sent prim s options A W), set_header_sent.
  rewrite In_passed_through.
  destruct (headers_with_authorization s options) as [_ Hyes].
  rewrite (Hyes a E N). split.
  - intros [HIn _].
    pose proof (get_In _ _ _ (put_well_formed _ "Proxy-Authorization" a W) HIn)
      as G.
    rewrite get_put_same in G. congruence.
  - intros ->. split; [apply In_put_same | reflexivity].
Qed.

(** A header of the caller that is neither denied nor replaced is set
    with its value. *)
Lemma caller_header_set (prim : Native) (s : Service)
  (options : RequestOptions.t) (k v : string) :
  accepts_safe_calls (throws prim) ->
  well_formed (headers_or_empty options) ->
  In (k, v) (headers_or_empty options) ->
  ~ denied k ->
  k <> "Proxy-Authorization"
  \/ truthy_string (effective_authorization s options) = false ->
  In (xhr_setRequestHeader k v) (calls (snd (xhrRequest prim s options))).
Proof.
  intros A W HIn D K. rewrite (calls_sent prim s options A W), set_header_sent.
  apply In_passed_through. split; [| now apply unsafe_header_allowed].
  destruct (headers_with_authorization s options) as [Hno Hyes].
  destruct (truthy_string (effective_authorization s options)) eqn:T.
  - destruct K as [K | K]; [| discriminate].
    apply truthy_string_iff in T. destruct T as (a & E & N).
    rewrite (Hyes a E N). now apply In_put_other.
  - now rewrite (Hno eq_refl).
Qed.

(** C5, as the code has it. The authorization in force is the cached
    value when that is a non-empty string (the one of the last
    [configure] that had the key), otherwise the value of
    [options.proxyAuthorization]; when it is a non-empty string it is set
    as the one [Proxy-Authorization] header of the native object, in the
    place of one the caller supplied, next to every other header of the
    caller that is not denied; otherwise the options are left as they
    were and no such header is added. *)
Theorem proxy_authorization_header (prim : Native) (s : Service)
  (options : RequestOptions.t) :
  accepts_safe_calls (throws prim) ->
  well_formed (headers_or_empty options) ->
  let a := effective_authorization s options in
  let f := snd (xhrRequest prim s options) in
  (forall c, authorization s = Some c -> c <> "" -> a = Some c)
  /\ (forall config s0 c,
        RequestConfiguration.proxyAuthorization config = Present (Some c) ->
        c <> "" ->
        effective_authorization (configure config s0) options = Some c)
  /\ (authorization s = None \/ authorization s = Some "" ->
      a = RequestOptions.proxyAuthorization options)
  /\ (forall v, a = Some v -> v <> "" ->
        In (xhr_setRequestHeader "Proxy-Authorization" v) (calls f)
        /\ (forall v', In (xhr_setRequestHeader "Proxy-Authorization" v')
                          (calls f) -> v' = v)
        /\ forall k w, In (k, w) (headers_or_empty options) ->
                       ~ denied k -> k <> "Proxy-Authorization" ->
                       In (xhr_setRequestHeader k w) (calls f))
  /\ (truthy_string a = false ->
      fst (xhrRequest prim s options) = options
      /\ calls f = (calls_to_send options ++ aborts (events prim))%list
      /\ forall k w, In (k, w) (headers_or_empty options) -> ~ denied k ->
                     In (xhr_setRequestHeader k w) (calls f)).
Proof.
  intros A W a f. split; [| split; [| split; [| split]]].
  - intros c E N. subst a. unfold effective_authorization, or_string.
    rewrite E. destruct c; [now elim N | reflexivity].
  - intros config s0 c E N.
    unfold effective_authorization, or_string, configure, super_configure,
      DefaultBrowserRequestService.configure.
    rewrite E. simpl. destruct c; [now elim N | reflexivity].
  - intros E. subst a. unfold effective_authorization, or_string.
    destruct E as [-> | ->]; reflexivity.
  - intros v E N. subst a f. split; [| split].
    + now apply (authorization_header_set prim s options v v A W E N).
    + intros v' HIn.
      now apply (authorization_header_set prim s options v v' A W E N).
    + intros k w HIn D P. apply caller_header_set; auto.
  - intros T. subst a f. split; [| split].
    + rewrite fst_xhrRequest.
      now destruct (with_authorization_cases s options) as [Hno _]; apply Hno.
    + rewrite (calls_sent prim s options A W).
      destruct (with_authorization_cases s options) as [Hno _].
      now rewrite (Hno T).
    + intros k w HIn D. apply caller_header_set; auto.
Qed.

(** C6, as the code has it. In a native request on a primitive that
    accepts what is not denied, the executor runs to [send] without an
    error; no header named [User-Agent], [Accept-Encoding] or
    [Content-Length] is set; every other header of the caller is set with
    its value, but a [Proxy-Authorization] of the caller when a non-empty
    authorization is in force: that one is set with the authorization. *)
Theorem caller_headers_on_native_call (prim : Native) (s : Service)
  (options : RequestOptions.t) :
  accepts_safe_calls (throws prim) ->
  well_formed (headers_or_empty options) ->
  let options' := with_authorization s options in
  let f := snd (xhrRequest prim s options) in
  executor options' (throws prim) [] = (inl tt, calls_to_send options')
  /\ (forall k v, In (xhr_setRequestHeader k v) (calls f) -> ~ denied k)
  /\ (forall k v, In (k, v) (headers_or_empty options) -> denied k ->
        forall w, ~ In (xhr_setRequestHeader k w) (calls f))
  /\ (forall k v, In (k, v) (headers_or_empty options) -> ~ denied k ->
        k <> "Proxy-Authorization"
        \/ truthy_string (effective_authorization s options) = false ->
        In (xhr_setRequestHeader k v) (calls f))
  /\ (forall a, effective_authorization s options = Some a -> a <> "" ->
        forall v, In (xhr_setRequestHeader "Proxy-Authorization" v) (calls f)
                  <-> v = a).
Proof.
  intros A W options' f.
  assert (Safe : forall k v, In (xhr_setRequestHeader k v) (calls f) ->
                             ~ denied k).
  { intros k v HIn. subst f.
    rewrite (calls_sent prim s options A W), set_header_sent in HIn.
    apply In_passed_through in HIn. now apply unsafe_header_allowed. }
  split; [| split; [| split; [| split]]].
  - apply executor_log; [exact A |].
    now apply with_authorization_well_formed.
  - exact Safe.
  - intros k v _ D w HIn. exact (Safe k w HIn D).
  - intros k v HIn D K. now apply caller_header_set.
  - intros a E N v. now apply authorization_header_set.
Qed.

End CallerHeaders.

Lemma proxy_authorization_header_witness :
  In (xhr_setRequestHeader "Proxy-Authorization" "Basic abc")
     (XHRBrowserRequestService.calls
        (snd (XHRBrowserRequestService.xhrRequest
                (Sample.strict [ev_load 200 "" []])
                (XHRBrowserRequestService.configure
                   (RequestConfiguration.mk Absent (Present (Some "Basic abc"))
                      Absent)
                   Sample.fresh)
                (Sample.get_x (Some [("X-Custom", "Y")]) None)))).
Proof.
  assert (A : accepts_safe_calls (throws (Sample.strict [ev_load 200 "" []]))).
  { intros c Hc. destruct c; simpl; try reflexivity.
    rewrite (Hc name value eq_refl). reflexivity. }
  assert (W : well_formed
                (headers_or_empty (Sample.get_x (Some [("X-Custom", "Y")]) None))).
  { unfold well_formed. simpl. repeat constructor. simpl. tauto. }
  refine (proj1 (proj1 (proj2 (proj2 (proj2
            (proxy_authorization_header
               (Sample.strict [ev_load 200 "" []])
               (XHRBrowserRequestService.configure
                  (RequestConfiguration.mk Absent (Present (Some "Basic abc"))
                     Absent)
                  Sample.fresh)
               (Sample.get_x (Some [("X-Custom", "Y")]) None) A W))))
            "Basic abc" eq_refl _)).
  discriminate.
Defined.

Lemma caller_headers_on_native_call_witness :
  In (xhr_setRequestHeader "X-Custom" "Y")
     (XHRBrowserRequestService.calls
        (snd (XHRBrowserRequestService.xhrRequest (Sample.strict [])
                {| authorization := Some "Basic new"; effects := [] |}
                (Sample.get_x
                   (Some [("User-Agent", "X"); ("X-Custom", "Y");
                          ("Proxy-Authorization", "Basic old")])
                   None)))).
Proof.
  assert (A : accepts_safe_calls (throws (Sample.strict []))).
  { intros c Hc. destruct c; simpl; try reflexivity.
    rewrite (Hc name value eq_refl). reflexivity. }
  assert (W : well_formed
                (headers_or_empty
                   (Sample.get_x
                      (Some [("User-Agent", "X"); ("X-Custom", "Y");
                             ("Proxy-Authorization", "Basic old")])
                      None))).
  { unfold well_formed. simpl.
    repeat constructor; simpl; intuition discriminate. }
  refine (proj1 (proj2 (proj2 (proj2
            (caller_headers_on_native_call (Sample.strict [])
               {| authorization := Some "Basic new"; effects := [] |}
               (Sample.get_x
                  (Some [("User-Agent", "X"); ("X-Custom", "Y");
                         ("Proxy-Authorization", "Basic old")])
                  None) A W))))
            "X-Custom" "Y" _ _ _).
  - simpl. right. left. reflexivity.
  - intros [E | [E | E]]; discriminate E.
  - left. discriminate.
Defined.

(** C6, as it is worded, fails: with [Basic new] cached, the caller's
    header [Proxy-Authorization: Basic old], which is not denied, is not
    passed with its value. *)
Lemma caller_proxy_authorization_not_passed :
  ~ caller_headers_passed (Sample.quiet [])
      {| authorization := Some "Basic new"; effects := [] |}
      (Sample.get_x (Some [("Proxy-Authorization", "Basic old")]) None).
Proof.
  intros H.
  specialize (H "Proxy-Authorization" "Basic old" (or_introl eq_refl)).
  assert (D : ~ denied "Proxy-Authorization").
  { intros [E | [E | E]]; discriminate E. }
  specialize (H D). vm_compute in H.
  decompose [or] H; try discriminate; contradiction.
Qed.
